(** * The defensive example agent (examples/agents/python_agent.py)

    A shallow embedding of the agent's per-turn decision function
    [choose_action], of its memory store ([load_memory], [save_memory]) and
    of the read-decide-persist-emit loop [main], followed by the properties
    of the specification that were checked against them.

    Modelling conventions.
    - The objects the program handles all come out of [json.load] /
      [json.loads] or are built from them, so a Python object is a [value]:
      None, a bool, an int, a str, a list or a dict with str keys.  A dict is
      an association list in insertion order (iteration order matters for
      [min]); numbers with a fraction or an exponent are outside the model.
    - A Python exception is a value of [exn]; code that may raise returns
      [result A].  The wording of the descriptions is the one of CPython 3.11.
    - The text layer of JSON is not modelled: a line of standard input is the
      outcome of [json.loads(line.strip())], a line of standard output is the
      document handed to [json.dumps], and a file holds either a document or
      something [json.load] rejects. *)

From Stdlib Require Import ZArith List Bool Lia.
From stdpp Require Import gmap strings.

Set Warnings "-register-all".
Local Open Scope Z_scope.

(** ** Python objects *)

Inductive value : Type :=
  | VNone
  | VBool (b : bool)
  | VInt (n : Z)
  | VStr (s : string)
  | VList (xs : list value)
  | VDict (items : list (string * value)).

Inductive exn : Type :=
  | JSONDecodeError (msg : string)
  | KeyError (key : string)
  | TypeError (msg : string)
  | AttributeError (msg : string)
  | ValueError (msg : string).

(** [str(e)]: a [KeyError] prints the repr of the missing key. *)
Definition exn_str (e : exn) : string :=
  match e with
  | KeyError key => "'" +:+ key +:+ "'"
  | JSONDecodeError msg | TypeError msg | AttributeError msg
  | ValueError msg => msg
  end.

(** The outcome of code that may raise. *)
Inductive result (A : Type) : Type :=
  | OK (a : A)
  | Raise (e : exn).
Arguments OK {A} a.
Arguments Raise {A} e.

Definition bind {A B : Type} (c : result A) (k : A -> result B) : result B :=
  match c with
  | OK a => k a
  | Raise e => Raise e
  end.

Declare Scope result_scope.
Delimit Scope result_scope with result.
Notation "x <- c ;; k" := (bind c (fun x => k))
  (at level 100, c at next level, right associativity) : result_scope.
Local Open Scope result_scope.

Definition type_name (v : value) : string :=
  match v with
  | VNone => "NoneType"
  | VBool _ => "bool"
  | VInt _ => "int"
  | VStr _ => "str"
  | VList _ => "list"
  | VDict _ => "dict"
  end.

Definition quoted (s : string) : string := "'" +:+ s +:+ "'".
Definition dquote : string := String (Ascii.ascii_of_nat 34) EmptyString.

(** ** Dictionaries: association lists in insertion order *)

Fixpoint dict_lookup (key : string) (d : list (string * value)) : option value :=
  match d with
  | [] => None
  | (k, v) :: d' => if String.eqb key k then Some v else dict_lookup key d'
  end.

(** [d[key] = v]: an existing key keeps its place, a new key goes last. *)
Fixpoint dict_store (key : string) (v : value) (d : list (string * value))
  : list (string * value) :=
  match d with
  | [] => [(key, v)]
  | (k, w) :: d' =>
      if String.eqb key k then (k, v) :: d' else (k, w) :: dict_store key v d'
  end.

(** [obj[key]] for a str key. *)
Definition getitem (obj : value) (key : string) : result value :=
  match obj with
  | VDict d =>
      match dict_lookup key d with
      | Some v => OK v
      | None => Raise (KeyError key)
      end
  | VList _ => Raise (TypeError "list indices must be integers or slices, not str")
  | VStr _ => Raise (TypeError "string indices must be integers, not 'str'")
  | _ => Raise (TypeError (quoted (type_name obj) +:+ " object is not subscriptable"))
  end.

(** [obj[key] = v] for a str key. *)
Definition setitem (obj : value) (key : string) (v : value) : result value :=
  match obj with
  | VDict d => OK (VDict (dict_store key v d))
  | VList _ => Raise (TypeError "list indices must be integers or slices, not str")
  | _ => Raise (TypeError (quoted (type_name obj) +:+
                             " object does not support item assignment"))
  end.

Definition no_attribute (obj : value) (attr : string) : exn :=
  AttributeError (quoted (type_name obj) +:+ " object has no attribute " +:+ quoted attr).

(** [obj.get(key, default)] *)
Definition get (obj : value) (key : string) (default : value) : result value :=
  match obj with
  | VDict d =>
      OK (match dict_lookup key d with Some v => v | None => default end)
  | _ => Raise (no_attribute obj "get")
  end.

(** [obj.values()] and [obj.items()], in iteration order. *)
Definition values (obj : value) : result (list value) :=
  match obj with
  | VDict d => OK (map snd d)
  | _ => Raise (no_attribute obj "values")
  end.

Definition items (obj : value) : result (list (string * value)) :=
  match obj with
  | VDict d => OK d
  | _ => Raise (no_attribute obj "items")
  end.

(** [lst.append(item)]: the contents of the list after the call. *)
Definition append (lst item : value) : result (list value) :=
  match lst with
  | VList xs => OK (xs ++ [item])
  | _ => Raise (no_attribute lst "append")
  end.

(** [xs[-n:]] *)
Definition lastn {A : Type} (n : nat) (xs : list A) : list A :=
  skipn (length xs - n) xs.

(** ** Arithmetic and comparisons *)

(** bool is a subclass of int. *)
Definition as_int (v : value) : option Z :=
  match v with
  | VInt n => Some n
  | VBool b => Some (Z.b2z b)
  | _ => None
  end.

Definition unsupported_operand (op : string) (a : value) : exn :=
  TypeError ("unsupported operand type(s) for " +:+ op +:+ ": " +:+
             quoted (type_name a) +:+ " and 'int'").

Definition cannot_concatenate (ty : string) : exn :=
  TypeError ("can only concatenate " +:+ ty +:+ " (not " +:+ dquote +:+ "int" +:+
             dquote +:+ ") to " +:+ ty).

(** [a + n] for an int literal [n] *)
Definition py_add_int (a : value) (n : Z) : result value :=
  match as_int a with
  | Some x => OK (VInt (x + n))
  | None =>
      match a with
      | VStr _ => Raise (cannot_concatenate "str")
      | VList _ => Raise (cannot_concatenate "list")
      | _ => Raise (unsupported_operand "+" a)
      end
  end.

(** [a - n] for an int literal [n] *)
Definition py_sub_int (a : value) (n : Z) : result value :=
  match as_int a with
  | Some x => OK (VInt (x - n))
  | None => Raise (unsupported_operand "-" a)
  end.

(** [a == b]; never raises; dict equality ignores the order of the keys. *)
Fixpoint py_eq (a b : value) {struct a} : bool :=
  match a, b with
  | VNone, VNone => true
  | VStr s, VStr t => String.eqb s t
  | (VInt _ | VBool _), (VInt _ | VBool _) =>
      match as_int a, as_int b with
      | Some x, Some y => x =? y
      | _, _ => false
      end
  | VList xs, VList ys =>
      (fix all2 (xs ys : list value) {struct xs} : bool :=
         match xs, ys with
         | [], [] => true
         | x :: xs', y :: ys' => py_eq x y && all2 xs' ys'
         | _, _ => false
         end) xs ys
  | VDict d, VDict e =>
      Nat.eqb (length d) (length e) &&
      (fix sub (d : list (string * value)) {struct d} : bool :=
         match d with
         | [] => true
         | (k, v) :: d' =>
             match dict_lookup k e with
             | Some w => py_eq v w && sub d'
             | None => false
             end
         end) d
  | _, _ => false
  end.

Inductive cmpop : Type := Lt | Le | Gt | Ge.

Definition cmpop_symbol (op : cmpop) : string :=
  match op with Lt => "<" | Le => "<=" | Gt => ">" | Ge => ">=" end.

Definition holds (op : cmpop) (c : comparison) : bool :=
  match op, c with
  | Lt, Datatypes.Lt | Le, Datatypes.Lt | Le, Eq
  | Gt, Datatypes.Gt | Ge, Datatypes.Gt | Ge, Eq => true
  | _, _ => false
  end.

Definition not_supported (op : cmpop) (a b : value) : exn :=
  TypeError (quoted (cmpop_symbol op) +:+ " not supported between instances of " +:+
             quoted (type_name a) +:+ " and " +:+ quoted (type_name b)).

(** [a op b] for the four order comparisons: numbers by value, strings
    lexicographically (bytewise, which on UTF-8 text is the order of the
    code points), lists by their first differing elements, and a
    [TypeError] for anything else. *)
Fixpoint py_compare (op : cmpop) (a b : value) {struct a} : result bool :=
  match a, b with
  | VStr s, VStr t => OK (holds op (String.compare s t))
  | VList xs, VList ys =>
      (fix first_diff (xs ys : list value) {struct xs} : result bool :=
         match xs, ys with
         | x :: xs', y :: ys' =>
             if py_eq x y then first_diff xs' ys' else py_compare op x y
         | _, _ => OK (holds op (Nat.compare (length xs) (length ys)))
         end) xs ys
  | _, _ =>
      match as_int a, as_int b with
      | Some x, Some y => OK (holds op (x ?= y))
      | _, _ => Raise (not_supported op a b)
      end
  end.

(** ** The decision engine: [choose_action] *)

Definition rest_action : value := VDict [("action", VStr "rest")].
Definition replicate_action : value := VDict [("action", VStr "replicate")].
Definition attack_action (target_dir : string) : value :=
  VDict [("action", VStr "attack"); ("target", VStr target_dir)].

(** [memory[key] = memory.get(key, 0) + 1] *)
Definition increment (memory : value) (key : string) : result value :=
  old <- get memory key (VInt 0) ;;
  new <- py_add_int old 1 ;;
  setitem memory key new.

(** The block under "Update memory".  [append] mutates the list stored in
    the memory, which the slice on the next line then reads back. *)
Definition update_memory (memory position : value) : result value :=
  (* memory['turns_played'] = memory.get('turns_played', 0) + 1 *)
  memory <- increment memory "turns_played" ;;
  (* memory['positions_visited'] = memory.get('positions_visited', []) *)
  visited <- get memory "positions_visited" (VList []) ;;
  memory <- setitem memory "positions_visited" visited ;;
  (* memory['positions_visited'].append(position) *)
  visited <- getitem memory "positions_visited" ;;
  xs <- append visited position ;;
  memory <- setitem memory "positions_visited" (VList xs) ;;
  (* memory['positions_visited'] = memory['positions_visited'][-20:] *)
  setitem memory "positions_visited" (VList (lastn 20 xs)).

(** [sum(1 for info in infos if info['energy'] >= my_energy)] *)
Fixpoint count_threats (infos : list value) (my_energy : value) : result nat :=
  match infos with
  | [] => OK 0%nat
  | info :: infos' =>
      energy <- getitem info "energy" ;;
      threat <- py_compare Ge energy my_energy ;;
      n <- count_threats infos' my_energy ;;
      OK (if threat then S n else n)
  end.

(** [info['energy'] > 0 and info['energy'] >= my_energy - 2] *)
Definition is_threatening (info my_energy : value) : result bool :=
  energy <- getitem info "energy" ;;
  alive <- py_compare Gt energy (VInt 0) ;;
  if alive then
    energy <- getitem info "energy" ;;
    bound <- py_sub_int my_energy 2 ;;
    py_compare Ge energy bound
  else OK false.

(** [{d: info for d, info in its if ...}], accumulated into [acc]. *)
Fixpoint comprehension (its : list (string * value)) (my_energy : value)
    (acc : list (string * value)) : result (list (string * value)) :=
  match its with
  | [] => OK acc
  | (d, info) :: its' =>
      keep <- is_threatening info my_energy ;;
      comprehension its' my_energy (if keep then dict_store d info acc else acc)
  end.

Definition threatening_neighbors (neighbors my_energy : value)
  : result (list (string * value)) :=
  its <- items neighbors ;;
  comprehension its my_energy [].

(** [lambda d: threatening_neighbors[d]['energy']] *)
Definition energy_key (threatening : list (string * value)) (d : string) : result value :=
  info <- getitem (VDict threatening) d ;;
  getitem info "energy".

(** [min(keys, key=key)]: the running minimum is replaced only by a key
    whose value is strictly smaller, so the first minimum is kept. *)
Fixpoint min_loop (key : string -> result value) (keys : list string)
    (best : string) (best_val : value) : result string :=
  match keys with
  | [] => OK best
  | d :: keys' =>
      val <- key d ;;
      smaller <- py_compare Lt val best_val ;;
      if smaller then min_loop key keys' d val
      else min_loop key keys' best best_val
  end.

Definition py_min (key : string -> result value) (keys : list string) : result string :=
  match keys with
  | [] => Raise (ValueError "min() arg is an empty sequence")
  | d :: keys' => val <- key d ;; min_loop key keys' d val
  end.

(** The block under "Defensive strategy": the action and the memory. *)
Definition strategy (neighbors my_energy : value) (threats : nat) (memory : value)
  : result (value * value) :=
  (* if threats >= 2 and my_energy <= 4: *)
  emergency <- (if (2 <=? threats)%nat then py_compare Le my_energy (VInt 4)
                else OK false) ;;
  if emergency then
    (* if my_energy >= 3: *)
    can_replicate <- py_compare Ge my_energy (VInt 3) ;;
    if can_replicate then
      memory <- increment memory "emergency_replications" ;;
      OK (replicate_action, memory)
    else OK (rest_action, memory)
  else
    (* elif my_energy >= 10: *)
    high_energy <- py_compare Ge my_energy (VInt 10) ;;
    if high_energy then
      memory <- increment memory "replications_made" ;;
      OK (replicate_action, memory)
    (* elif threats > 0: *)
    else if (0 <? threats)%nat then
      threatening <- threatening_neighbors neighbors my_energy ;;
      match threatening with
      | _ :: _ =>
          target_dir <- py_min (energy_key threatening) (map fst threatening) ;;
          memory <- increment memory "defensive_attacks" ;;
          OK (attack_action target_dir, memory)
      | [] => OK (rest_action, memory)
      end
    else
      memory <- increment memory "peaceful_rests" ;;
      OK (rest_action, memory).

(** The memory is updated in place and returned: the second component is
    the content, on return, of the dict that was passed in. *)
Definition choose_action (world_state memory : value) : result (value * value) :=
  neighbors <- getitem world_state "neighbors" ;;
  my_energy <- getitem world_state "energy" ;;
  position <- getitem world_state "position" ;;
  memory <- update_memory memory position ;;
  (* threats = sum(1 for info in neighbors.values() if ...) *)
  infos <- values neighbors ;;
  threats <- count_threats infos my_energy ;;
  strategy neighbors my_energy threats memory.

(** ** The memory store *)

(** What the file system holds under a path: a JSON document, that is text
    which [json.load] reads as [doc] and which is what a completed
    [json.dump] of [doc] leaves, or bytes that [json.load] rejects (an empty
    or cut-short file among them). *)
Inductive file_content : Type :=
  | Unparsable
  | Document (doc : value).

(** The store as the program meets it.  [files] are the files that can be
    opened for reading, with what they hold.  [writable path] tells whether
    [open(path, 'w')] succeeds (it fails when the directory is missing or the
    permissions forbid it).  [readable path] tells whether a file written at
    [path] can afterwards be opened for reading.  [dumps memory] tells
    whether [json.dump(memory, f, indent=2)] runs to completion once the file
    is open: it does not when the memory holds an int beyond the interpreter's
    limit for the conversion to text, is nested beyond its recursion limit,
    or the device is full. *)
Record filesystem : Type := {
  files : gmap string file_content;
  writable : string -> bool;
  readable : string -> bool;
  dumps : value -> bool
}.

(** [os.environ.get('AGENT_ID', 'unknown')] *)
Definition AGENT_ID (environ : gmap string string) : string :=
  default "unknown" (environ !! "AGENT_ID").

Definition MEMORY_FILE (agent_id : string) : string :=
  "/tmp/agents/" +:+ agent_id +:+ "/" +:+ agent_id +:+ ".json".

Definition load_memory (agent_id : string) (fs : filesystem) : value :=
  match files fs !! MEMORY_FILE agent_id with
  | Some (Document doc) => doc
  | Some Unparsable | None => VDict []
  end.

(** The [try] covers both [open] and [json.dump], and every failure is
    passed over.  When [open] fails nothing changes.  Once it has succeeded
    the file is truncated: a dump that completes leaves the document, a dump
    that fails leaves the file cut short. *)
Definition save_memory (agent_id : string) (memory : value) (fs : filesystem)
  : filesystem :=
  if writable fs (MEMORY_FILE agent_id)
  then
    let content := if dumps fs memory then Document memory else Unparsable in
    {| files := if readable fs (MEMORY_FILE agent_id)
                then <[MEMORY_FILE agent_id := content]> (files fs)
                else delete (MEMORY_FILE agent_id) (files fs);
       writable := writable fs;
       readable := readable fs;
       dumps := dumps fs |}
  else fs.

(** ** The main loop *)

(** The process sees its files and what it has printed so far. *)
Record world : Type := {
  fs : filesystem;
  stdout : list value
}.

Definition print (doc : value) (w : world) : world :=
  {| fs := fs w; stdout := stdout w ++ [doc] |}.

Definition fallback_action (e : exn) : value :=
  VDict [("action", VStr "rest"); ("message", VStr ("Error: " +:+ exn_str e))].

(** The body of the [try]: the [for] loop over the lines of standard input,
    each given as the outcome of [json.loads(line.strip())].  The loop ends at
    the end of the input or at the first exception, which it hands to the
    [except] clause around it. *)
Fixpoint main_loop (agent_id : string) (stdin : list (result value))
    (memory : value) (w : world) : world * option exn :=
  match stdin with
  | [] => (w, None)
  | line :: stdin' =>
      match (world_state <- line ;; choose_action world_state memory) with
      | Raise e => (w, Some e)
      | OK (action, updated_memory) =>
          let w := {| fs := save_memory agent_id updated_memory (fs w);
                      stdout := stdout w |} in
          let w := print action w in
          main_loop agent_id stdin' updated_memory w
      end
  end.

Definition main (environ : gmap string string) (stdin : list (result value))
    (w : world) : world :=
  let agent_id := AGENT_ID environ in
  let memory := load_memory agent_id (fs w) in
  match main_loop agent_id stdin memory w with
  | (w, None) => w
  | (w, Some e) => print (fallback_action e) w
  end.

(** ** Well-formed observations and memories

    The typed reading of the data model: an observation carries a position,
    an integer energy and, per direction, a neighbour with an integer
    energy; a memory is a mapping whose counters, where present, are
    integers and whose visited positions, where present, form a list. *)

Record observation : Type := {
  position : value;
  energy : Z;
  neighbors : list (string * Z)
}.

Definition info_energy (info : value) : option Z :=
  match info with
  | VDict d =>
      match dict_lookup "energy" d with
      | Some (VInt n) => Some n
      | _ => None
      end
  | _ => None
  end.

Fixpoint neighbor_energies (its : list (string * value)) : option (list (string * Z)) :=
  match its with
  | [] => Some []
  | (d, info) :: its' =>
      match info_energy info, neighbor_energies its' with
      | Some n, Some ns => Some ((d, n) :: ns)
      | _, _ => None
      end
  end.

(** The observation a decoded line stands for, if it is well formed.  The
    keys of a decoded JSON object are pairwise distinct. *)
Definition observe (world_state : value) : option observation :=
  match world_state with
  | VDict d =>
      match dict_lookup "neighbors" d, dict_lookup "energy" d,
            dict_lookup "position" d with
      | Some (VDict its), Some (VInt e), Some p =>
          match neighbor_energies its with
          | Some ns =>
              if decide (NoDup (map fst ns))
              then Some {| position := p; energy := e; neighbors := ns |}
              else None
          | None => None
          end
      | _, _, _ => None
      end
  | _ => None
  end.

(** The value stored under a key of the memory. *)
Definition field (key : string) (memory : value) : option value :=
  match memory with
  | VDict d => dict_lookup key d
  | _ => None
  end.

(** A counter of the memory, read as the program reads it: 0 when absent. *)
Definition counter (key : string) (memory : value) : Z :=
  match field key memory with
  | Some (VInt n) => n
  | _ => 0
  end.

(** The visited positions, read as the program reads them: [] when absent. *)
Definition visited (memory : value) : list value :=
  match field "positions_visited" memory with
  | Some (VList xs) => xs
  | _ => []
  end.

Definition counter_keys : list string :=
  ["turns_played"; "replications_made"; "emergency_replications";
   "defensive_attacks"; "peaceful_rests"].

Definition branch_counters : list string :=
  ["replications_made"; "emergency_replications";
   "defensive_attacks"; "peaceful_rests"].

Definition int_or_absent (o : option value) : bool :=
  match o with
  | None | Some (VInt _) => true
  | _ => false
  end.

Definition list_or_absent (o : option value) : bool :=
  match o with
  | None | Some (VList _) => true
  | _ => false
  end.

Definition wf_memory (memory : value) : bool :=
  match memory with
  | VDict d =>
      forallb (fun key => int_or_absent (dict_lookup key d)) counter_keys &&
      list_or_absent (dict_lookup "positions_visited" d)
  | _ => false
  end.

(** The quantities the strategy is described with. *)
Definition threat_count (o : observation) : nat :=
  length (List.filter (fun n => energy o <=? snd n) (neighbors o)).

Definition threatening (o : observation) : list (string * Z) :=
  List.filter (fun n => (0 <? snd n) && (energy o - 2 <=? snd n)) (neighbors o).

Definition emergency (o : observation) : bool :=
  (2 <=? threat_count o)%nat && (energy o <=? 4).

Definition safe_growth (o : observation) : bool :=
  negb (emergency o) && (10 <=? energy o).

Definition defensive (o : observation) : bool :=
  negb (emergency o) && negb (10 <=? energy o) && (0 <? threat_count o)%nat.

(** [d] is the first direction of [l] with the least energy: every earlier
    entry has strictly more energy, every later one at least as much. *)
Definition first_min (d : string) (l : list (string * Z)) : Prop :=
  exists pre n post,
    l = pre ++ (d, n) :: post /\
    Forall (fun x => n < snd x) pre /\
    Forall (fun x => n <= snd x) post.

(** The decision engine run over a sequence of observations, each call
    receiving the memory the previous one returned. *)
Fixpoint play (observations : list value) (memory : value) : result value :=
  match observations with
  | [] => OK memory
  | world_state :: observations' =>
      r <- choose_action world_state memory ;;
      play observations' (snd r)
  end.

(** ** The algorithm as the specification words it

    [spec_decide] follows section 4.2 of the specification on typed data:
    bookkeeping first, then the branches in priority order.  It is compared
    with [choose_action] in [choose_action_spec_decide]. *)

Definition set_field (key : string) (v : value) (memory : value) : value :=
  match memory with
  | VDict d => VDict (dict_store key v d)
  | _ => memory
  end.

Definition bump (key : string) (memory : value) : value :=
  set_field key (VInt (counter key memory + 1)) memory.

Definition bookkeeping (p : value) (memory : value) : value :=
  set_field "positions_visited" (VList (lastn 20 (visited memory ++ [p])))
    (bump "turns_played" memory).

Fixpoint min_from (l : list (string * Z)) (best : string) (best_n : Z) : string :=
  match l with
  | [] => best
  | (d, n) :: l' => if n <? best_n then min_from l' d n else min_from l' best best_n
  end.

Definition min_dir (l : list (string * Z)) : string :=
  match l with
  | [] => EmptyString
  | (d, n) :: l' => min_from l' d n
  end.

Definition spec_decide (o : observation) (memory : value) : value * value :=
  let memory := bookkeeping (position o) memory in
  if emergency o then
    if 3 <=? energy o
    then (replicate_action, bump "emergency_replications" memory)
    else (rest_action, memory)
  else if 10 <=? energy o then
    (replicate_action, bump "replications_made" memory)
  else if (0 <? threat_count o)%nat then
    match threatening o with
    | _ :: _ => (attack_action (min_dir (threatening o)),
                 bump "defensive_attacks" memory)
    | [] => (rest_action, memory)
    end
  else (rest_action, bump "peaceful_rests" memory).

(** The actions of the protocol that the strategy can choose. *)
Definition is_action (o : observation) (action : value) : Prop :=
  action = rest_action \/ action = replicate_action \/
  exists target_dir,
    In target_dir (map fst (neighbors o)) /\ action = attack_action target_dir.

(** The keys written by the bookkeeping. *)
Definition bookkeeping_keys : list string := ["turns_played"; "positions_visited"].

(** The actions chosen over a run of turns. *)
Fixpoint turn_actions (observations : list value) (memory : value) : list value :=
  match observations with
  | [] => []
  | world_state :: observations' =>
      match choose_action world_state memory with
      | OK (action, memory') => action :: turn_actions observations' memory'
      | Raise _ => []
      end
  end.

(** ** The loop as the specification words it

    Section 7 of the specification: a failing line is answered with the
    fallback action and the loop goes on to the next line, with the memory
    it had.  It is compared with [main] in [main_stops_after_fallback]. *)

Fixpoint spec_main_loop (agent_id : string) (stdin : list (result value))
    (memory : value) (w : world) : world :=
  match stdin with
  | [] => w
  | line :: stdin' =>
      match (world_state <- line ;; choose_action world_state memory) with
      | Raise e => spec_main_loop agent_id stdin' memory (print (fallback_action e) w)
      | OK (action, updated_memory) =>
          let w := {| fs := save_memory agent_id updated_memory (fs w);
                      stdout := stdout w |} in
          spec_main_loop agent_id stdin' updated_memory (print action w)
      end
  end.

Definition spec_main (environ : gmap string string) (stdin : list (result value))
    (w : world) : world :=
  let agent_id := AGENT_ID environ in
  spec_main_loop agent_id stdin (load_memory agent_id (fs w)) w.

(** ** Concrete inputs *)

Definition neighbor (d : string) (n : Z) : string * value :=
  (d, VDict [("energy", VInt n)]).

(** Energy 5, a neighbour of energy 5 to the north and one of energy 3 to
    the south. *)
Definition two_neighbors : value :=
  VDict [("position", VList [VInt 2; VInt 7]); ("energy", VInt 5);
         ("neighbors", VDict [neighbor "N" 5; neighbor "S" 3])].

Definition two_neighbors_obs : observation :=
  {| position := VList [VInt 2; VInt 7]; energy := 5;
     neighbors := [("N", 5); ("S", 3)] |}.

(** Energy 3 with two neighbours at least as strong. *)
Definition cornered : value :=
  VDict [("position", VInt 0); ("energy", VInt 3);
         ("neighbors", VDict [neighbor "N" 3; neighbor "E" 9; neighbor "W" 1])].

Definition cornered_obs : observation :=
  {| position := VInt 0; energy := 3;
     neighbors := [("N", 3); ("E", 9); ("W", 1)] |}.

(** Energy 0 next to a neighbour of energy 0. *)
Definition dead_neighbor : value :=
  VDict [("position", VInt 0); ("energy", VInt 0);
         ("neighbors", VDict [neighbor "N" 0])].

Definition dead_neighbor_obs : observation :=
  {| position := VInt 0; energy := 0; neighbors := [("N", 0)] |}.

(** Energy 6 with one stronger neighbour, one within reach and a dead one. *)
Definition outnumbered : value :=
  VDict [("position", VInt 0); ("energy", VInt 6);
         ("neighbors", VDict [neighbor "N" 8; neighbor "E" 4; neighbor "S" 0])].

Definition outnumbered_obs : observation :=
  {| position := VInt 0; energy := 6;
     neighbors := [("N", 8); ("E", 4); ("S", 0)] |}.

(** Energy 1 and nobody around. *)
Definition quiet : value :=
  VDict [("position", VInt 0); ("energy", VInt 1); ("neighbors", VDict [])].

(** A walk of 22 turns through the positions 0, 1, ..., 21. *)
Definition walk : list value :=
  map (fun n => VDict [("position", VInt (Z.of_nat n)); ("energy", VInt 1);
                       ("neighbors", VDict [])])
      (seq 0 22).

Definition walk_obs : list observation :=
  map (fun n => {| position := VInt (Z.of_nat n); energy := 1; neighbors := [] |})
      (seq 0 22).

(** A memory with a key of its own and most counters still absent. *)
Definition some_memory : value :=
  VDict [("turns_played", VInt 41); ("peaceful_rests", VInt 7);
         ("notes", VStr "kept")].

(** What CPython 3.11 can dump: it refuses to convert to text an int of
    more than 4300 decimal digits ([sys.int_max_str_digits]).  An int below
    2^14000 has fewer digits than that and is passed without computing the
    power of ten.  Nesting depth is not looked at: the documents used below
    are shallow. *)
Definition int_to_text_ok (n : Z) : bool :=
  if Z.log2 (Z.abs n) <? 14000 then true else Z.abs n <? 10 ^ 4300.

Fixpoint json_dump_ok (v : value) : bool :=
  match v with
  | VInt n => int_to_text_ok n
  | VList xs => forallb json_dump_ok xs
  | VDict d => forallb (fun kv => match kv with (_, w) => json_dump_ok w end) d
  | VNone | VBool _ | VStr _ => true
  end.

(** A memory whose turn counter has 4301 decimal digits. *)
Definition astronomic_memory : value :=
  VDict [("turns_played", VInt (10 ^ 4300))].


(** A file system holding a damaged memory file that can be overwritten. *)
Definition scratch_fs : filesystem :=
  {| files := {[ MEMORY_FILE "agent-7" := Unparsable ]};
     writable := fun path => String.eqb path (MEMORY_FILE "agent-7");
     readable := fun _ => true;
     dumps := json_dump_ok |}.

Definition fresh_world : world :=
  {| fs := {| files := ∅; writable := fun _ => true; readable := fun _ => true;
              dumps := json_dump_ok |};
     stdout := [] |}.

(** Three lines: a quiet turn, an observation without its fields, and a
    quiet turn again. *)
Definition three_lines : list (result value) := [OK quiet; OK (VDict []); OK quiet].

(** Case analysis on the computation bound first in a successful run. *)
Ltac bind_inv H :=
  match type of H with
  | bind ?c _ = OK _ =>
      let E := fresh "E" in
      destruct c eqn:E; [cbn [bind] in H | discriminate H]
  end.

(** ** Further vocabulary *)

(** A turn that no branch counter records: the emergency branch without
    the energy to replicate, or the defensive branch without a target. *)
Definition silent (o : observation) : bool :=
  (emergency o && (energy o <? 3)) ||
  (defensive o && match threatening o with [] => true | _ :: _ => false end).

(** The four branch counters added up, each read as the program reads it. *)
Definition branch_total (memory : value) : Z :=
  counter "replications_made" memory + counter "emergency_replications" memory +
  counter "defensive_attacks" memory + counter "peaceful_rests" memory.

(** The values that are no numbers whatever the reading: None, a str, a
    list, a dict.  On these [x + 1], [x - 2] and an order comparison with a
    number raise.  What is left in the model is the ints and the bools; a
    float, which the model does not hold, is none of the four either. *)
Definition non_number (v : value) : bool :=
  match v with
  | VNone | VStr _ | VList _ | VDict _ => true
  | VBool _ | VInt _ => false
  end.

(** A neighbour entry the strategy can read: a dict with an energy that is
    not a [non_number]. *)
Definition readable_neighbor (info : value) : bool :=
  match info with
  | VDict d =>
      match dict_lookup "energy" d with
      | Some v => negb (non_number v)
      | None => false
      end
  | _ => false
  end.

Definition number_or_absent (o : option value) : bool :=
  match o with
  | None => true
  | Some v => negb (non_number v)
  end.

(** The keys of a memory, in their order. *)
Definition keys (memory : value) : list string :=
  match memory with
  | VDict d => map fst d
  | _ => []
  end.

(** ** Further concrete inputs *)

(** Energy 12 among three stronger neighbours. *)
Definition strong_and_surrounded : value :=
  VDict [("position", VInt 0); ("energy", VInt 12);
         ("neighbors", VDict [neighbor "N" 20; neighbor "E" 15; neighbor "S" 12])].

Definition strong_and_surrounded_obs : observation :=
  {| position := VInt 0; energy := 12;
     neighbors := [("N", 20); ("E", 15); ("S", 12)] |}.

(** Energy 2 between two stronger neighbours. *)
Definition weak_and_cornered : value :=
  VDict [("position", VInt 0); ("energy", VInt 2);
         ("neighbors", VDict [neighbor "N" 2; neighbor "S" 6])].

Definition weak_and_cornered_obs : observation :=
  {| position := VInt 0; energy := 2; neighbors := [("N", 2); ("S", 6)] |}.

(** The observation [two_neighbors] made at another position. *)
Definition two_neighbors_elsewhere : value :=
  VDict [("neighbors", VDict [neighbor "N" 5; neighbor "S" 3]);
         ("position", VStr "b4"); ("energy", VInt 5)].

(** A game of five turns, two of them silent. *)
Definition skirmish : list value :=
  [two_neighbors; weak_and_cornered; cornered; dead_neighbor; strong_and_surrounded].

Definition skirmish_obs : list observation :=
  [two_neighbors_obs; weak_and_cornered_obs; cornered_obs; dead_neighbor_obs;
   strong_and_surrounded_obs].

(** The keys [choose_action] reads from an observation, in the order in
    which it reads them. *)
Definition observation_keys : list string := ["neighbors"; "energy"; "position"].

(** The first of them that a dict lacks. *)
Definition first_missing (d : list (string * value)) : option string :=
  List.find (fun k => match dict_lookup k d with None => true | Some _ => false end)
            observation_keys.

(** A memory whose list of positions is longer than the program keeps it. *)
Definition crowded_memory : value :=
  VDict [("positions_visited", VList (map (fun n => VInt (Z.of_nat n)) (seq 0 25)));
         ("turns_played", VInt 25)].

(** A world in which another agent keeps its memory and every file can be
    written. *)
Definition shared_world : world :=
  {| fs := {| files := {[ MEMORY_FILE "agent-7" := Document some_memory ]};
              writable := fun _ => true; readable := fun _ => true;
              dumps := json_dump_ok |};
     stdout := [] |}.

(** A world whose memory file for the default identity holds a turn counter
    and nothing else. *)
Definition counting_world (turns : Z) : world :=
  {| fs := {| files := {[ MEMORY_FILE "unknown" :=
                            Document (VDict [("turns_played", VInt turns)]) ]};
              writable := fun _ => true; readable := fun _ => true;
              dumps := json_dump_ok |};
     stdout := [] |}.

(** The largest turn counter that can still be written down: 4300 digits. *)
Definition brim_world : world := counting_world (10 ^ 4300 - 1).

(** A world whose memory file for the default identity holds a JSON array. *)
Definition array_world : world :=
  {| fs := {| files := {[ MEMORY_FILE "unknown" := Document (VList []) ]};
              writable := fun _ => true; readable := fun _ => true;
              dumps := json_dump_ok |};
     stdout := [] |}.

(** ** Identity of mappings

    Two observations, or two memories, are the same mapping when they are
    equal or are dicts that hold the same value under every key, whatever
    the order in which they list their keys. *)
Definition same_mapping (a b : value) : Prop :=
  a = b \/
  exists d1 d2, a = VDict d1 /\ b = VDict d2 /\
                forall k, dict_lookup k d1 = dict_lookup k d2.

(** Two outcomes of code that may raise agree when both raise the same
    exception or both return, with results related by [R]. *)
Definition agree {A : Type} (R : A -> A -> Prop) (r1 r2 : result A) : Prop :=
  match r1, r2 with
  | OK a1, OK a2 => R a1 a2
  | Raise e1, Raise e2 => e1 = e2
  | _, _ => False
  end.

(** The same action with memories that are the same mapping. *)
Definition same_turn (r1 r2 : value * value) : Prop :=
  fst r1 = fst r2 /\ same_mapping (snd r1) (snd r2).

(** The observation [two_neighbors] and the memory [some_memory] with their
    keys listed in another order. *)
Definition two_neighbors_reordered : value :=
  VDict [("neighbors", VDict [neighbor "N" 5; neighbor "S" 3]);
         ("position", VList [VInt 2; VInt 7]); ("energy", VInt 5)].

Definition some_memory_reordered : value :=
  VDict [("notes", VStr "kept"); ("peaceful_rests", VInt 7);
         ("turns_played", VInt 41)].

(** Case analysis on a key against the literal keys it is compared with. *)
Ltac compare_keys k :=
  repeat match goal with
         | |- context [String.eqb k ?s] =>
             destruct (String.eqb_spec k s) as [->|?]; cbn
         end.

(** The observation [outnumbered] with its neighbours listed in another
    order. *)
Definition outnumbered_reordered : value :=
  VDict [("position", VInt 0); ("energy", VInt 6);
         ("neighbors", VDict [neighbor "S" 0; neighbor "E" 4; neighbor "N" 8])].

Definition outnumbered_reordered_obs : observation :=
  {| position := VInt 0; energy := 6;
     neighbors := [("S", 0); ("E", 4); ("N", 8)] |}.

(** Two neighbours of the same energy, listed north first and south first. *)
Definition tie_north_first : value :=
  VDict [("position", VInt 0); ("energy", VInt 5);
         ("neighbors", VDict [neighbor "N" 5; neighbor "S" 5])].

Definition tie_south_first : value :=
  VDict [("position", VInt 0); ("energy", VInt 5);
         ("neighbors", VDict [neighbor "S" 5; neighbor "N" 5])].

(** A world in which no file can be written, with a memory on file. *)
Definition frozen_world : world :=
  {| fs := {| files := {[ MEMORY_FILE "unknown" := Document some_memory ]};
              writable := fun _ => false; readable := fun _ => true;
              dumps := json_dump_ok |};
     stdout := [] |}.

(** The same memory on file in a world in which every file can be written. *)
Definition thawed_world : world :=
  {| fs := {| files := {[ MEMORY_FILE "unknown" := Document some_memory ]};
              writable := fun _ => true; readable := fun _ => true;
              dumps := json_dump_ok |};
     stdout := [] |}.

(** * Properties *)

(** ** Dictionaries *)

Lemma dict_lookup_store (key k : string) (v : value) (d : list (string * value)) :
  dict_lookup k (dict_store key v d) =
  if String.eqb k key then Some v else dict_lookup k d.
Proof.
  induction d as [|[k0 w] d IH]; simpl.
  - reflexivity.
  - destruct (String.eqb key k0) eqn:Hkey; simpl.
    + apply String.eqb_eq in Hkey. subst k0.
      destruct (String.eqb k key); reflexivity.
    + rewrite IH. destruct (String.eqb k k0) eqn:Hk; [|reflexivity].
      apply String.eqb_eq in Hk. subst k0.
      rewrite String.eqb_sym, Hkey. reflexivity.
Qed.

Lemma dict_lookup_store_eq (key : string) (v : value) (d : list (string * value)) :
  dict_lookup key (dict_store key v d) = Some v.
Proof. rewrite dict_lookup_store, String.eqb_refl. reflexivity. Qed.

Lemma dict_lookup_store_ne (key k : string) (v : value) (d : list (string * value)) :
  k <> key -> dict_lookup k (dict_store key v d) = dict_lookup k d.
Proof.
  intros Hne. rewrite dict_lookup_store.
  apply String.eqb_neq in Hne. rewrite Hne. reflexivity.
Qed.

Lemma dict_store_store (key : string) (v w : value) (d : list (string * value)) :
  dict_store key w (dict_store key v d) = dict_store key w d.
Proof.
  induction d as [|[k0 u] d IH]; simpl.
  - rewrite String.eqb_refl. reflexivity.
  - destruct (String.eqb key k0) eqn:Hkey; simpl; rewrite Hkey.
    + reflexivity.
    + rewrite IH. reflexivity.
Qed.

Lemma dict_store_fresh (key : string) (v : value) (d : list (string * value)) :
  ~ In key (map fst d) -> dict_store key v d = d ++ [(key, v)].
Proof.
  induction d as [|[k0 u] d IH]; simpl; intros Hfresh.
  - reflexivity.
  - destruct (String.eqb key k0) eqn:Hkey.
    + apply String.eqb_eq in Hkey. contradict Hfresh. left. congruence.
    + rewrite IH; [reflexivity|]. contradict Hfresh. right. exact Hfresh.
Qed.

(** ** Comparisons on integers *)

Lemma holds_Ge (x y : Z) : holds Ge (x ?= y) = (y <=? x).
Proof.
  destruct (Z.compare_spec x y); simpl; symmetry;
    first [apply Z.leb_le | apply Z.leb_gt]; lia.
Qed.

Lemma holds_Gt (x y : Z) : holds Gt (x ?= y) = (y <? x).
Proof.
  destruct (Z.compare_spec x y); simpl; symmetry;
    first [apply Z.ltb_lt | apply Z.ltb_ge]; lia.
Qed.

Lemma holds_Le (x y : Z) : holds Le (x ?= y) = (x <=? y).
Proof.
  destruct (Z.compare_spec x y); simpl; symmetry;
    first [apply Z.leb_le | apply Z.leb_gt]; lia.
Qed.

Lemma holds_Lt (x y : Z) : holds Lt (x ?= y) = (x <? y).
Proof.
  destruct (Z.compare_spec x y); simpl; symmetry;
    first [apply Z.ltb_lt | apply Z.ltb_ge]; lia.
Qed.

Lemma py_compare_int (op : cmpop) (x y : Z) :
  py_compare op (VInt x) (VInt y) = OK (holds op (x ?= y)).
Proof. reflexivity. Qed.

(** ** Memory updates on well-formed memories *)

Lemma wf_memory_inv (memory : value) :
  wf_memory memory = true ->
  exists d, memory = VDict d /\
    (forall key, In key counter_keys -> int_or_absent (dict_lookup key d) = true) /\
    list_or_absent (dict_lookup "positions_visited" d) = true.
Proof.
  destruct memory as [| | | | |d]; try discriminate.
  unfold wf_memory. intros H. apply andb_true_iff in H as [Hc Hv].
  exists d. split; [reflexivity|]. split; [|exact Hv].
  intros key Hin. rewrite forallb_forall in Hc. apply Hc, Hin.
Qed.

Lemma increment_bump (key : string) (d : list (string * value)) :
  int_or_absent (dict_lookup key d) = true ->
  increment (VDict d) key = OK (bump key (VDict d)).
Proof.
  intros Hint. unfold increment, bump, counter. simpl.
  destruct (dict_lookup key d) as [[]|]; try discriminate; reflexivity.
Qed.

Lemma update_memory_bookkeeping (p : value) (d : list (string * value)) :
  int_or_absent (dict_lookup "turns_played" d) = true ->
  list_or_absent (dict_lookup "positions_visited" d) = true ->
  update_memory (VDict d) p = OK (bookkeeping p (VDict d)).
Proof.
  intros Hint Hlist. unfold update_memory, bookkeeping, visited.
  rewrite (increment_bump _ _ Hint). unfold bump. simpl.
  rewrite !dict_lookup_store. simpl.
  destruct (dict_lookup "positions_visited" d) as [[]|]; try discriminate;
    simpl; rewrite ?dict_lookup_store_eq; simpl; rewrite !dict_store_store; reflexivity.
Qed.

(** ** The threat count and the threatening neighbours on typed data *)

Lemma getitem_info_energy (info : value) (n : Z) :
  info_energy info = Some n -> getitem info "energy" = OK (VInt n).
Proof.
  destruct info as [| | | | |d]; try discriminate. simpl.
  destruct (dict_lookup "energy" d) as [[]|]; try discriminate.
  intros [= ->]. reflexivity.
Qed.

Lemma neighbor_energies_cons_inv (d : string) (info : value)
    (its : list (string * value)) (ns : list (string * Z)) :
  neighbor_energies ((d, info) :: its) = Some ns ->
  exists n ns', ns = (d, n) :: ns' /\ info_energy info = Some n /\
                neighbor_energies its = Some ns'.
Proof.
  simpl. destruct (info_energy info) as [n|]; [|discriminate].
  destruct (neighbor_energies its) as [ns'|]; [|discriminate].
  intros [= <-]. eauto.
Qed.

Lemma neighbor_energies_keys (its : list (string * value)) (ns : list (string * Z)) :
  neighbor_energies its = Some ns -> map fst ns = map fst its.
Proof.
  revert ns. induction its as [|[d info] its IH]; intros ns H.
  - injection H as <-. reflexivity.
  - apply neighbor_energies_cons_inv in H as (n & ns' & -> & _ & H).
    simpl. f_equal. apply IH, H.
Qed.

Lemma neighbor_energies_app (its its' : list (string * value))
    (ns ns' : list (string * Z)) :
  neighbor_energies its = Some ns -> neighbor_energies its' = Some ns' ->
  neighbor_energies (its ++ its') = Some (ns ++ ns').
Proof.
  revert ns. induction its as [|[d info] its IH]; intros ns H H'.
  - injection H as <-. exact H'.
  - apply neighbor_energies_cons_inv in H as (n & ns0 & -> & Hn & H).
    simpl. rewrite Hn, (IH _ H H'). reflexivity.
Qed.

Lemma count_threats_typed (its : list (string * value)) (ns : list (string * Z)) (e : Z) :
  neighbor_energies its = Some ns ->
  count_threats (map snd its) (VInt e) =
  OK (length (List.filter (fun n => e <=? snd n) ns)).
Proof.
  revert ns. induction its as [|[d info] its IH]; intros ns H.
  - injection H as <-. reflexivity.
  - apply neighbor_energies_cons_inv in H as (n & ns' & -> & Hn & H).
    cbn [count_threats map snd]. rewrite (getitem_info_energy _ _ Hn).
    cbn [bind]. rewrite py_compare_int, (IH _ H), holds_Ge.
    cbn [bind List.filter snd]. destruct (e <=? n); reflexivity.
Qed.

Lemma is_threatening_typed (info : value) (n e : Z) :
  info_energy info = Some n ->
  is_threatening info (VInt e) = OK ((0 <? n) && (e - 2 <=? n)).
Proof.
  intros Hn. unfold is_threatening.
  rewrite (getitem_info_energy _ _ Hn). cbn [bind py_sub_int as_int].
  rewrite py_compare_int, holds_Gt. destruct (0 <? n); [|reflexivity].
  rewrite py_compare_int, holds_Ge. reflexivity.
Qed.

(** With pairwise distinct keys the comprehension is a filter: it keeps the
    selected entries in iteration order. *)
Lemma comprehension_typed (its acc : list (string * value))
    (ns accn : list (string * Z)) (e : Z) :
  neighbor_energies its = Some ns ->
  neighbor_energies acc = Some accn ->
  NoDup (map fst acc ++ map fst its) ->
  exists t,
    comprehension its (VInt e) acc = OK t /\
    neighbor_energies t =
      Some (accn ++ List.filter (fun n => (0 <? snd n) && (e - 2 <=? snd n)) ns) /\
    NoDup (map fst t).
Proof.
  revert acc accn ns. induction its as [|[d info] its IH]; intros acc accn ns H Hacc Hnd.
  - injection H as <-. exists acc. simpl. rewrite !app_nil_r in *. auto.
  - apply neighbor_energies_cons_inv in H as (n & ns' & -> & Hn & H).
    cbn [comprehension]. rewrite (is_threatening_typed _ _ _ Hn).
    cbn [bind List.filter snd]. cbn [map fst] in Hnd.
    assert (Hfresh : ~ In d (map fst acc)).
    { apply NoDup_app in Hnd as (_ & Hdisj & _). intros Hin.
      apply (Hdisj d); [apply list_elem_of_In, Hin | left]. }
    destruct ((0 <? n) && (e - 2 <=? n)).
    + rewrite (dict_store_fresh _ _ _ Hfresh).
      destruct (IH (acc ++ [(d, info)]) (accn ++ [(d, n)]) ns' H) as (t & Ht & Hty & Hndt).
      * apply neighbor_energies_app; [exact Hacc|]. simpl. rewrite Hn. reflexivity.
      * rewrite map_app. simpl. rewrite <- app_assoc. exact Hnd.
      * exists t. rewrite <- app_assoc in Hty. auto.
    + destruct (IH acc accn ns' H Hacc) as (t & Ht & Hty & Hndt).
      * apply NoDup_app in Hnd as (Ha & Hdisj & Hb).
        apply NoDup_app. split; [exact Ha|]. split.
        -- intros x Hx Hx'. apply (Hdisj x Hx). right. exact Hx'.
        -- apply NoDup_cons in Hb as [_ Hb]. exact Hb.
      * exists t. auto.
Qed.

(** ** The minimum-energy target *)

Lemma energy_key_typed (t : list (string * value)) (tz : list (string * Z)) :
  neighbor_energies t = Some tz -> NoDup (map fst t) ->
  forall d n, In (d, n) tz -> energy_key t d = OK (VInt n).
Proof.
  revert tz. induction t as [|[d0 info] t IH]; intros tz H Hnd d n Hin.
  - injection H as <-. destruct Hin.
  - apply neighbor_energies_cons_inv in H as (n0 & tz' & -> & Hn0 & H).
    cbn [map fst] in Hnd. apply NoDup_cons in Hnd as [Hfresh Hnd].
    unfold energy_key. cbn [getitem dict_lookup].
    destruct (String.eqb d d0) eqn:Hd.
    + apply String.eqb_eq in Hd. subst d0. cbn [bind].
      destruct Hin as [[= ->]|Hin]; [apply getitem_info_energy, Hn0|].
      exfalso. apply Hfresh. apply list_elem_of_In.
      rewrite <- (neighbor_energies_keys _ _ H).
      apply (in_map fst) in Hin. exact Hin.
    + destruct Hin as [[= <- _]|Hin].
      * rewrite String.eqb_refl in Hd. discriminate.
      * apply (IH _ H Hnd _ _ Hin).
Qed.

Lemma min_loop_typed (key : string -> result value) (l : list (string * Z))
    (best : string) (best_n : Z) :
  (forall d n, In (d, n) l -> key d = OK (VInt n)) ->
  min_loop key (map fst l) best (VInt best_n) = OK (min_from l best best_n).
Proof.
  revert best best_n. induction l as [|[d n] l IH]; intros best best_n Hkey.
  - reflexivity.
  - cbn [map fst min_loop min_from]. rewrite (Hkey d n) by (left; reflexivity).
    cbn [bind]. rewrite py_compare_int, holds_Lt. cbn [bind].
    destruct (n <? best_n); apply IH; intros d' n' Hin; apply Hkey; right; exact Hin.
Qed.

Lemma py_min_typed (t : list (string * value)) (tz : list (string * Z)) :
  neighbor_energies t = Some tz -> NoDup (map fst t) -> t <> [] ->
  py_min (energy_key t) (map fst t) = OK (min_dir tz).
Proof.
  intros H Hnd Hne. pose proof (energy_key_typed _ _ H Hnd) as Hkey.
  rewrite <- (neighbor_energies_keys _ _ H).
  destruct tz as [|[d n] tz].
  - destruct t as [|[d info] t]; [contradiction|].
    apply neighbor_energies_cons_inv in H as (? & ? & [=] & _).
  - cbn [map fst py_min min_dir]. rewrite (Hkey d n) by (left; reflexivity).
    cbn [bind]. apply min_loop_typed. intros d' n' Hin. apply Hkey. right. exact Hin.
Qed.

Lemma min_from_first_min (l : list (string * Z)) (best : string) (best_n : Z) :
  first_min (min_from l best best_n) ((best, best_n) :: l).
Proof.
  revert best best_n. induction l as [|[d n] l IH]; intros best best_n.
  - exists [], best_n, []. simpl. auto.
  - cbn [min_from]. destruct (n <? best_n) eqn:Hlt.
    + apply Z.ltb_lt in Hlt.
      destruct (IH d n) as (pre & m & post & Heq & Hpre & Hpost).
      exists ((best, best_n) :: pre), m, post.
      split; [cbn [app]; f_equal; exact Heq|]. split; [|exact Hpost].
      constructor; [|exact Hpre]. cbn [snd].
      destruct pre as [|x pre].
      * injection Heq as _ -> _. exact Hlt.
      * injection Heq as <- _. apply Forall_inv in Hpre. cbn [snd] in Hpre. lia.
    + apply Z.ltb_ge in Hlt.
      destruct (IH best best_n) as (pre & m & post & Heq & Hpre & Hpost).
      destruct pre as [|x pre].
      * injection Heq as Hbest Hm Hl. subst m post.
        exists [], best_n, ((d, n) :: l).
        split; [cbn [app]; rewrite <- Hbest; reflexivity|].
        split; [constructor|]. constructor; [exact Hlt|exact Hpost].
      * injection Heq as Hx Hl. subst x.
        exists ((best, best_n) :: (d, n) :: pre), m, post.
        split; [cbn [app]; do 2 f_equal; exact Hl|]. split; [|exact Hpost].
        pose proof (Forall_inv Hpre) as Hhd. cbn [snd] in Hhd.
        constructor; [exact Hhd|]. constructor; [cbn [snd]; lia|].
        apply Forall_inv_tail in Hpre. exact Hpre.
Qed.

Lemma min_dir_first_min (l : list (string * Z)) :
  l <> [] -> first_min (min_dir l) l.
Proof.
  destruct l as [|[d n] l]; [contradiction|].
  intros _. apply min_from_first_min.
Qed.

(** ** [choose_action] computes [spec_decide] on well-formed inputs *)

Lemma observe_inv (world_state : value) (o : observation) :
  observe world_state = Some o ->
  exists d its,
    world_state = VDict d /\
    dict_lookup "neighbors" d = Some (VDict its) /\
    dict_lookup "energy" d = Some (VInt (energy o)) /\
    dict_lookup "position" d = Some (position o) /\
    neighbor_energies its = Some (neighbors o) /\
    NoDup (map fst its).
Proof.
  destruct world_state as [| | | | |d]; try discriminate. unfold observe.
  destruct (dict_lookup "neighbors" d) as [[| | | | |its]|] eqn:Hn; try discriminate.
  destruct (dict_lookup "energy" d) as [[| |e| | |]|] eqn:He; try discriminate.
  destruct (dict_lookup "position" d) as [p|] eqn:Hp; try discriminate.
  destruct (neighbor_energies its) as [ns|] eqn:Hns; try discriminate.
  destruct (decide (NoDup (map fst ns))) as [Hnd|]; try discriminate.
  intros [= <-]. exists d, its. cbn [energy position neighbors].
  rewrite <- (neighbor_energies_keys _ _ Hns).
  repeat split; try reflexivity; assumption.
Qed.

Lemma neighbor_energies_nil_inv (t : list (string * value)) :
  neighbor_energies t = Some [] -> t = [].
Proof.
  destruct t as [|[d info] t]; [reflexivity|]. intros H.
  apply neighbor_energies_cons_inv in H as (? & ? & [=] & _).
Qed.

Lemma threatening_neighbors_typed (its : list (string * value)) (o : observation) :
  neighbor_energies its = Some (neighbors o) -> NoDup (map fst its) ->
  exists t,
    threatening_neighbors (VDict its) (VInt (energy o)) = OK t /\
    neighbor_energies t = Some (threatening o) /\
    NoDup (map fst t).
Proof.
  intros H Hnd. unfold threatening_neighbors. cbn [items bind].
  apply (comprehension_typed its [] (neighbors o) [] (energy o) H);
    [reflexivity | exact Hnd].
Qed.

Lemma increment_bookkeeping (key : string) (p : value) (d : list (string * value)) :
  In key branch_counters ->
  int_or_absent (dict_lookup key d) = true ->
  increment (bookkeeping p (VDict d)) key = OK (bump key (bookkeeping p (VDict d))).
Proof.
  intros Hin Hint. unfold bookkeeping, bump at 2. cbn [set_field].
  apply increment_bump. rewrite !dict_lookup_store.
  cbn [branch_counters In] in Hin.
  destruct Hin as [<-|[<-|[<-|[<-|[]]]]]; exact Hint.
Qed.

(** The branches below the emergency branch. *)
Lemma strategy_tail (its : list (string * value)) (o : observation)
    (m : value) :
  neighbor_energies its = Some (neighbors o) -> NoDup (map fst its) ->
  (forall key, In key branch_counters -> increment m key = OK (bump key m)) ->
  (high_energy <- py_compare Ge (VInt (energy o)) (VInt 10) ;;
   if high_energy then
     memory <- increment m "replications_made" ;;
     OK (replicate_action, memory)
   else if (0 <? threat_count o)%nat then
     threatening <- threatening_neighbors (VDict its) (VInt (energy o)) ;;
     match threatening with
     | _ :: _ =>
         target_dir <- py_min (energy_key threatening) (map fst threatening) ;;
         memory <- increment m "defensive_attacks" ;;
         OK (attack_action target_dir, memory)
     | [] => OK (rest_action, m)
     end
   else
     memory <- increment m "peaceful_rests" ;;
     OK (rest_action, memory)) =
  OK (if 10 <=? energy o then (replicate_action, bump "replications_made" m)
      else if (0 <? threat_count o)%nat then
        match threatening o with
        | _ :: _ => (attack_action (min_dir (threatening o)),
                     bump "defensive_attacks" m)
        | [] => (rest_action, m)
        end
      else (rest_action, bump "peaceful_rests" m)).
Proof.
  intros H Hnd Hbump.
  rewrite py_compare_int, holds_Ge. cbn [bind].
  destruct (10 <=? energy o).
  { rewrite Hbump by (simpl; tauto). reflexivity. }
  destruct (0 <? threat_count o)%nat.
  - destruct (threatening_neighbors_typed its o H Hnd) as (t & Ht & Hty & Hndt).
    rewrite Ht. cbn [bind].
    destruct (threatening o) as [|x tz] eqn:Hthr.
    + rewrite (neighbor_energies_nil_inv _ Hty). reflexivity.
    + destruct t as [|y t]; [discriminate Hty|].
      rewrite (py_min_typed _ _ Hty Hndt) by discriminate. cbn [bind].
      rewrite Hbump by (simpl; tauto). reflexivity.
  - rewrite Hbump by (simpl; tauto). reflexivity.
Qed.

Lemma strategy_spec_decide (its : list (string * value)) (o : observation)
    (p : value) (d : list (string * value)) :
  neighbor_energies its = Some (neighbors o) -> NoDup (map fst its) ->
  (forall key, In key branch_counters -> int_or_absent (dict_lookup key d) = true) ->
  p = position o ->
  strategy (VDict its) (VInt (energy o)) (threat_count o) (bookkeeping p (VDict d)) =
  OK (spec_decide o (VDict d)).
Proof.
  intros H Hnd Hint ->. unfold strategy, spec_decide, emergency.
  assert (Hbump : forall key, In key branch_counters ->
            increment (bookkeeping (position o) (VDict d)) key =
            OK (bump key (bookkeeping (position o) (VDict d)))).
  { intros key Hin. apply increment_bookkeeping; [exact Hin|apply Hint, Hin]. }
  destruct (2 <=? threat_count o)%nat; cbn [andb bind];
    [rewrite py_compare_int, holds_Le; cbn [bind]; destruct (energy o <=? 4)|].
  - (* emergency *)
    rewrite py_compare_int, holds_Ge. cbn [bind].
    destruct (3 <=? energy o); [|reflexivity].
    rewrite Hbump by (simpl; tauto). reflexivity.
  - apply strategy_tail; assumption.
  - apply strategy_tail; assumption.
Qed.

Lemma choose_action_spec_decide (world_state memory : value) (o : observation) :
  observe world_state = Some o -> wf_memory memory = true ->
  choose_action world_state memory = OK (spec_decide o memory).
Proof.
  intros Hobs Hwf.
  apply observe_inv in Hobs as (d & its & -> & Hn & He & Hp & Hits & Hnd).
  apply wf_memory_inv in Hwf as (dm & -> & Hint & Hlist).
  unfold choose_action. cbn [getitem]. rewrite Hn, He, Hp. cbn [bind].
  rewrite update_memory_bookkeeping;
    [|apply Hint; simpl; tauto|exact Hlist].
  cbn [bind values]. rewrite (count_threats_typed _ _ _ Hits). cbn [bind].
  apply strategy_spec_decide; try assumption; [|reflexivity].
  intros key Hin. apply Hint. simpl in *. tauto.
Qed.

(** ** Fields of the memory after a turn *)

Lemma field_bump (key k : string) (d : list (string * value)) :
  field k (bump key (VDict d)) =
  if String.eqb k key then Some (VInt (counter key (VDict d) + 1))
  else field k (VDict d).
Proof. apply dict_lookup_store. Qed.

Lemma field_bookkeeping (k : string) (p : value) (d : list (string * value)) :
  field k (bookkeeping p (VDict d)) =
  if String.eqb k "positions_visited"
  then Some (VList (lastn 20 (visited (VDict d) ++ [p])))
  else if String.eqb k "turns_played"
  then Some (VInt (counter "turns_played" (VDict d) + 1))
  else field k (VDict d).
Proof.
  unfold bookkeeping, bump. cbn [set_field field].
  rewrite !dict_lookup_store. reflexivity.
Qed.

Lemma bookkeeping_dict (p : value) (d : list (string * value)) :
  exists d', bookkeeping p (VDict d) = VDict d'.
Proof. eexists. reflexivity. Qed.

Lemma counter_bookkeeping (key : string) (p : value) (d : list (string * value)) :
  In key branch_counters ->
  counter key (bookkeeping p (VDict d)) = counter key (VDict d).
Proof.
  intros Hin. unfold counter. rewrite field_bookkeeping.
  cbn [branch_counters In] in Hin.
  destruct Hin as [<-|[<-|[<-|[<-|[]]]]]; reflexivity.
Qed.

(** What a turn does to a field, branch by branch: [spec_decide] bumps at
    most the counter [c] of the branch taken. *)
Lemma spec_decide_memory (o : observation) (d : list (string * value)) :
  snd (spec_decide o (VDict d)) = bookkeeping (position o) (VDict d) \/
  exists c, In c branch_counters /\
    snd (spec_decide o (VDict d)) = bump c (bookkeeping (position o) (VDict d)).
Proof.
  unfold spec_decide.
  destruct (emergency o).
  { destruct (3 <=? energy o); [right|left; reflexivity].
    exists "emergency_replications". split; [simpl; tauto|reflexivity]. }
  destruct (10 <=? energy o).
  { right. exists "replications_made". split; [simpl; tauto|reflexivity]. }
  destruct (0 <? threat_count o)%nat.
  - destruct (threatening o); [left; reflexivity|right].
    exists "defensive_attacks". split; [simpl; tauto|reflexivity].
  - right. exists "peaceful_rests". split; [simpl; tauto|reflexivity].
Qed.

Lemma branch_counter_not_bookkeeping (c : string) :
  In c branch_counters ->
  String.eqb c "positions_visited" = false /\ String.eqb c "turns_played" = false.
Proof.
  cbn [branch_counters In].
  intros [<-|[<-|[<-|[<-|[]]]]]; split; reflexivity.
Qed.

Lemma spec_decide_turns_played (o : observation) (d : list (string * value)) :
  field "turns_played" (snd (spec_decide o (VDict d))) =
  Some (VInt (counter "turns_played" (VDict d) + 1)).
Proof.
  destruct (spec_decide_memory o d) as [->|(c & Hc & ->)].
  - rewrite field_bookkeeping. reflexivity.
  - destruct (bookkeeping_dict (position o) d) as [d' Hd']. rewrite Hd'.
    rewrite field_bump, <- Hd', field_bookkeeping.
    destruct (branch_counter_not_bookkeeping c Hc) as [_ Htp].
    rewrite String.eqb_sym, Htp. reflexivity.
Qed.

Lemma spec_decide_visited (o : observation) (d : list (string * value)) :
  field "positions_visited" (snd (spec_decide o (VDict d))) =
  Some (VList (lastn 20 (visited (VDict d) ++ [position o]))).
Proof.
  destruct (spec_decide_memory o d) as [->|(c & Hc & ->)].
  - rewrite field_bookkeeping. reflexivity.
  - destruct (bookkeeping_dict (position o) d) as [d' Hd']. rewrite Hd'.
    rewrite field_bump, <- Hd', field_bookkeeping.
    destruct (branch_counter_not_bookkeeping c Hc) as [Hpv _].
    rewrite String.eqb_sym, Hpv. reflexivity.
Qed.

(** A branch counter is either left as it was or goes up by one. *)
Lemma spec_decide_counter (o : observation) (d : list (string * value)) (c : string) :
  In c branch_counters ->
  field c (snd (spec_decide o (VDict d))) = field c (VDict d) \/
  field c (snd (spec_decide o (VDict d))) = Some (VInt (counter c (VDict d) + 1)).
Proof.
  intros Hc. destruct (branch_counter_not_bookkeeping c Hc) as [Hpv Htp].
  destruct (spec_decide_memory o d) as [->|(c' & Hc' & ->)].
  - left. rewrite field_bookkeeping, Hpv, Htp. reflexivity.
  - destruct (bookkeeping_dict (position o) d) as [d' Hd']. rewrite Hd'.
    rewrite field_bump, <- Hd', field_bookkeeping, Hpv, Htp.
    destruct (String.eqb c c') eqn:Hcc; [right|left; reflexivity].
    apply String.eqb_eq in Hcc. subst c'.
    rewrite (counter_bookkeeping c _ _ Hc). reflexivity.
Qed.

Lemma wf_memory_spec_decide (o : observation) (memory : value) :
  wf_memory memory = true -> wf_memory (snd (spec_decide o memory)) = true.
Proof.
  intros Hwf. apply wf_memory_inv in Hwf as (d & -> & Hint & Hlist).
  assert (Hd : exists d', snd (spec_decide o (VDict d)) = VDict d').
  { destruct (spec_decide_memory o d) as [->|(c & _ & ->)];
      eexists; reflexivity. }
  destruct Hd as [d' Hd'].
  pose proof (spec_decide_turns_played o d) as Htp.
  pose proof (spec_decide_visited o d) as Hpv.
  pose proof (spec_decide_counter o d) as Hc.
  rewrite Hd' in *. cbn [field] in *. unfold wf_memory.
  apply andb_true_iff. split; [|rewrite Hpv; reflexivity].
  apply forallb_forall. intros key Hin. cbn [counter_keys In] in Hin.
  destruct Hin as [<-|Hin]; [rewrite Htp; reflexivity|].
  destruct (Hc key) as [->| ->]; [exact Hin| |reflexivity].
  apply Hint. right. exact Hin.
Qed.

(** ** The target of an attack is a threatening neighbour *)

Lemma first_min_In (d : string) (l : list (string * Z)) :
  first_min d l -> In d (map fst l).
Proof.
  intros (pre & n & post & -> & _). rewrite map_app. apply in_or_app.
  right. left. reflexivity.
Qed.

Lemma threatening_keys (o : observation) (d : string) :
  In d (map fst (threatening o)) -> In d (map fst (neighbors o)).
Proof.
  unfold threatening. intros Hin. apply in_map_iff in Hin as (x & <- & Hx).
  apply filter_In in Hx as [Hx _]. apply in_map, Hx.
Qed.

Lemma spec_decide_is_action (o : observation) (memory : value) :
  is_action o (fst (spec_decide o memory)).
Proof.
  unfold spec_decide, is_action.
  destruct (emergency o).
  { destruct (3 <=? energy o); auto. }
  destruct (10 <=? energy o); [auto|].
  destruct (0 <? threat_count o)%nat; [|auto].
  destruct (threatening o) as [|x l] eqn:Hthr; [auto|].
  right. right. exists (min_dir (x :: l)). split; [|reflexivity].
  apply threatening_keys. rewrite Hthr.
  apply first_min_In, min_dir_first_min. discriminate.
Qed.

(** * The claims *)

(** C6. For every well-formed observation and every memory, [choose_action]
    returns one action of the protocol together with an updated memory whose
    [turns_played] is exactly one more than before the call (a missing
    [turns_played] counting as 0). *)
Theorem choose_action_counts_the_turn (world_state memory : value) (o : observation) :
  observe world_state = Some o ->
  wf_memory memory = true ->
  exists action memory',
    choose_action world_state memory = OK (action, memory') /\
    is_action o action /\
    field "turns_played" memory' =
      Some (VInt (counter "turns_played" memory + 1)).
Proof.
  intros Hobs Hwf.
  rewrite (choose_action_spec_decide _ _ _ Hobs Hwf).
  exists (fst (spec_decide o memory)), (snd (spec_decide o memory)).
  split; [destruct (spec_decide o memory); reflexivity|].
  split; [apply spec_decide_is_action|].
  apply wf_memory_inv in Hwf as (d & -> & _). apply spec_decide_turns_played.
Qed.

Lemma choose_action_counts_the_turn_witness :
  exists action memory',
    choose_action two_neighbors some_memory = OK (action, memory') /\
    is_action two_neighbors_obs action /\
    field "turns_played" memory' = Some (VInt (counter "turns_played" some_memory + 1)).
Proof.
  apply (choose_action_counts_the_turn two_neighbors some_memory two_neighbors_obs);
    reflexivity.
Defined.

Lemma choose_action_partial_memory (world_state memory : value) (o : observation) :
  observe world_state = Some o ->
  wf_memory memory = true ->
  exists action memory',
    choose_action world_state memory = OK (action, memory') /\
    field "turns_played" memory' =
      Some (VInt (match field "turns_played" memory with
                  | Some (VInt n) => n
                  | _ => 0
                  end + 1)) /\
    field "positions_visited" memory' =
      Some (VList (lastn 20 (match field "positions_visited" memory with
                             | Some (VList xs) => xs
                             | _ => []
                             end ++ [position o]))) /\
    forall c, In c branch_counters ->
      field c memory' = field c memory \/
      field c memory' =
        Some (VInt (match field c memory with
                    | Some (VInt n) => n
                    | _ => 0
                    end + 1)).
Proof.
  intros Hobs Hwf.
  rewrite (choose_action_spec_decide _ _ _ Hobs Hwf).
  exists (fst (spec_decide o memory)), (snd (spec_decide o memory)).
  split; [destruct (spec_decide o memory); reflexivity|].
  apply wf_memory_inv in Hwf as (d & -> & _).
  split; [apply spec_decide_turns_played|].
  split; [apply spec_decide_visited|].
  intros c Hc. apply spec_decide_counter, Hc.
Qed.

Lemma load_memory_failure (agent_id : string) (fs : filesystem) :
  files fs !! MEMORY_FILE agent_id = None \/
  files fs !! MEMORY_FILE agent_id = Some Unparsable ->
  load_memory agent_id fs = VDict [].
Proof. unfold load_memory. intros [-> | ->]; reflexivity. Qed.

(** C9. [choose_action] is total over partial memories: for every
    well-formed observation and every memory mapping in which any of
    [turns_played], [positions_visited] and the four branch counters may be
    absent, the call succeeds; an absent counter is read as 0 and an absent
    [positions_visited] as the empty list.  This covers the empty memory that
    [load_memory] returns when the file is missing or cannot be parsed. *)
Theorem choose_action_total_on_partial_memory :
  (forall (world_state memory : value) (o : observation),
     observe world_state = Some o ->
     wf_memory memory = true ->
     exists action memory',
       choose_action world_state memory = OK (action, memory') /\
       field "turns_played" memory' =
         Some (VInt (match field "turns_played" memory with
                     | Some (VInt n) => n
                     | _ => 0
                     end + 1)) /\
       field "positions_visited" memory' =
         Some (VList (lastn 20 (match field "positions_visited" memory with
                                | Some (VList xs) => xs
                                | _ => []
                                end ++ [position o]))) /\
       forall c, In c branch_counters ->
         field c memory' = field c memory \/
         field c memory' =
           Some (VInt (match field c memory with
                       | Some (VInt n) => n
                       | _ => 0
                       end + 1))) /\
  (forall (world_state : value) (o : observation) (agent_id : string)
          (fs : filesystem),
     observe world_state = Some o ->
     files fs !! MEMORY_FILE agent_id = None \/
     files fs !! MEMORY_FILE agent_id = Some Unparsable ->
     exists action memory',
       choose_action world_state (load_memory agent_id fs) = OK (action, memory') /\
       field "turns_played" memory' = Some (VInt 1) /\
       field "positions_visited" memory' = Some (VList [position o]) /\
       forall c, In c branch_counters ->
         field c memory' = None \/ field c memory' = Some (VInt 1)).
Proof.
  split; [exact choose_action_partial_memory|].
  intros world_state o agent_id fs Hobs Hload.
  rewrite (load_memory_failure _ _ Hload).
  apply (choose_action_partial_memory world_state (VDict []) o Hobs).
  reflexivity.
Qed.

(** A memory with absent counters, and the empty memory loaded from a
    damaged file. *)
Lemma choose_action_total_on_partial_memory_witness :
  (exists action memory',
     choose_action two_neighbors some_memory = OK (action, memory') /\
     field "turns_played" memory' = Some (VInt 42) /\
     field "positions_visited" memory' = Some (VList [VList [VInt 2; VInt 7]]) /\
     forall c, In c branch_counters ->
       field c memory' = field c some_memory \/
       field c memory' =
         Some (VInt (match field c some_memory with
                     | Some (VInt n) => n
                     | _ => 0
                     end + 1))) /\
  (exists action memory',
     choose_action two_neighbors (load_memory "agent-7" scratch_fs) =
       OK (action, memory') /\
     field "turns_played" memory' = Some (VInt 1) /\
     field "positions_visited" memory' = Some (VList [VList [VInt 2; VInt 7]]) /\
     forall c, In c branch_counters ->
       field c memory' = None \/ field c memory' = Some (VInt 1)).
Proof.
  split.
  - apply (proj1 choose_action_total_on_partial_memory two_neighbors some_memory
             two_neighbors_obs); reflexivity.
  - apply (proj2 choose_action_total_on_partial_memory two_neighbors
             two_neighbors_obs "agent-7" scratch_fs);
      [reflexivity | right; reflexivity].
Defined.

(** C3. When at least two neighbours have an energy of at least the agent's
    own and that energy is 3 or 4, [choose_action] answers [replicate] and
    returns a memory in which [emergency_replications] has gone up by exactly
    one while [replications_made], [defensive_attacks] and [peaceful_rests]
    are as they were. *)
Theorem emergency_replication (world_state memory : value) (o : observation) :
  observe world_state = Some o ->
  wf_memory memory = true ->
  (2 <= threat_count o)%nat ->
  energy o <= 4 ->
  3 <= energy o ->
  exists memory',
    choose_action world_state memory = OK (replicate_action, memory') /\
    field "emergency_replications" memory' =
      Some (VInt (counter "emergency_replications" memory + 1)) /\
    field "replications_made" memory' = field "replications_made" memory /\
    field "defensive_attacks" memory' = field "defensive_attacks" memory /\
    field "peaceful_rests" memory' = field "peaceful_rests" memory.
Proof.
  intros Hobs Hwf Hthreats Hle Hge.
  rewrite (choose_action_spec_decide _ _ _ Hobs Hwf).
  apply wf_memory_inv in Hwf as (d & -> & _).
  unfold spec_decide, emergency.
  apply Nat.leb_le in Hthreats. apply Z.leb_le in Hle, Hge.
  rewrite Hthreats, Hle, Hge. cbn [andb].
  eexists. split; [reflexivity|].
  destruct (bookkeeping_dict (position o) d) as [d' Hd']. rewrite Hd'.
  rewrite !field_bump, <- Hd', !field_bookkeeping.
  rewrite counter_bookkeeping by (simpl; tauto).
  repeat split; reflexivity.
Qed.

Lemma emergency_replication_witness :
  exists memory',
    choose_action cornered some_memory = OK (replicate_action, memory') /\
    field "emergency_replications" memory' = Some (VInt 1) /\
    field "replications_made" memory' = None /\
    field "defensive_attacks" memory' = None /\
    field "peaceful_rests" memory' = Some (VInt 7).
Proof.
  apply (emergency_replication cornered some_memory cornered_obs);
    [reflexivity | reflexivity | vm_compute; lia | simpl; lia | simpl; lia].
Defined.

(** The defensive-attack branch with a threatening neighbour. *)
Lemma defensive_attack (world_state memory : value) (o : observation) :
  observe world_state = Some o ->
  wf_memory memory = true ->
  defensive o = true ->
  threatening o <> [] ->
  exists target_dir memory',
    choose_action world_state memory = OK (attack_action target_dir, memory') /\
    first_min target_dir (threatening o) /\
    field "defensive_attacks" memory' =
      Some (VInt (counter "defensive_attacks" memory + 1)).
Proof.
  intros Hobs Hwf Hdef Hne.
  rewrite (choose_action_spec_decide _ _ _ Hobs Hwf).
  apply wf_memory_inv in Hwf as (d & -> & _).
  unfold defensive in Hdef.
  apply andb_true_iff in Hdef as [Hdef Hthreats].
  apply andb_true_iff in Hdef as [Hemergency Hgrowth].
  apply negb_true_iff in Hemergency, Hgrowth.
  unfold spec_decide. rewrite Hemergency, Hgrowth, Hthreats.
  destruct (threatening o) as [|x l] eqn:Hthr; [contradiction|].
  eexists _, _. split; [reflexivity|].
  split; [apply min_dir_first_min; discriminate|].
  destruct (bookkeeping_dict (position o) d) as [d' Hd']. rewrite Hd'.
  rewrite field_bump, <- Hd'.
  rewrite counter_bookkeeping by (simpl; tauto). reflexivity.
Qed.

(** C5. Whenever the defensive-attack branch is taken and some neighbour is
    threatening, [choose_action] attacks the first direction, in iteration
    order, of least energy among the threatening neighbours, and
    [defensive_attacks] goes up by one.  In particular, with neighbours
    N of energy 5 and S of energy 3 and an own energy of 5, the action is
    an attack on S. *)
Theorem defensive_attack_targets_weakest :
  (forall (world_state memory : value) (o : observation),
     observe world_state = Some o ->
     wf_memory memory = true ->
     defensive o = true ->
     threatening o <> [] ->
     exists target_dir memory',
       choose_action world_state memory = OK (attack_action target_dir, memory') /\
       first_min target_dir (threatening o) /\
       field "defensive_attacks" memory' =
         Some (VInt (counter "defensive_attacks" memory + 1))) /\
  (forall (p memory : value),
     wf_memory memory = true ->
     exists memory',
       choose_action
         (VDict [("position", p); ("energy", VInt 5);
                 ("neighbors", VDict [("N", VDict [("energy", VInt 5)]);
                                      ("S", VDict [("energy", VInt 3)])])])
         memory = OK (attack_action "S", memory')).
Proof.
  split; [exact defensive_attack|].
  intros p memory Hwf.
  erewrite choose_action_spec_decide with
    (o := {| position := p; energy := 5; neighbors := [("N", 5); ("S", 3)] |});
    [|reflexivity|exact Hwf].
  eexists. reflexivity.
Qed.

Lemma defensive_attack_targets_weakest_witness :
  (exists target_dir memory',
     choose_action two_neighbors some_memory = OK (attack_action target_dir, memory') /\
     first_min target_dir [("N", 5); ("S", 3)] /\
     field "defensive_attacks" memory' = Some (VInt 1)) /\
  (exists memory',
     choose_action two_neighbors (VDict []) = OK (attack_action "S", memory')).
Proof.
  split.
  - apply (proj1 defensive_attack_targets_weakest two_neighbors some_memory
             two_neighbors_obs); [reflexivity | reflexivity | reflexivity | discriminate].
  - apply (proj2 defensive_attack_targets_weakest (VList [VInt 2; VInt 7]) (VDict [])).
    reflexivity.
Defined.

(** C2, as stated, fails: an agent of energy 0 next to a neighbour of energy
    0 counts one threat, is in neither the emergency nor the safe-growth
    branch, and yet has no threatening neighbour; the defensive branch falls
    back to [rest] and bumps no counter. *)
Lemma defensive_fallback_reached :
  observe dead_neighbor = Some dead_neighbor_obs /\
  threat_count dead_neighbor_obs = 1%nat /\
  emergency dead_neighbor_obs = false /\
  safe_growth dead_neighbor_obs = false /\
  defensive dead_neighbor_obs = true /\
  threatening_neighbors (VDict [neighbor "N" 0]) (VInt 0) = OK [] /\
  choose_action dead_neighbor (VDict []) =
    OK (rest_action,
        VDict [("turns_played", VInt 1); ("positions_visited", VList [VInt 0])]).
Proof. repeat split. Qed.

Lemma threat_count_positive (o : observation) :
  (0 < threat_count o)%nat ->
  exists x, In x (neighbors o) /\ energy o <= snd x.
Proof.
  unfold threat_count. intros Hpos.
  destruct (List.filter (fun n => energy o <=? snd n) (neighbors o)) as [|x l] eqn:Hf.
  - simpl in Hpos. lia.
  - assert (Hin : In x (List.filter (fun n => energy o <=? snd n) (neighbors o))).
    { rewrite Hf. left. reflexivity. }
    apply filter_In in Hin as [Hin Hle]. apply Z.leb_le in Hle. eauto.
Qed.

(** C2, amended.  For every observation in which the agent's energy is at
    least 1 and the defensive-attack branch is reached, the threatening
    subset computed by the program is non-empty and the action is an attack:
    the fallback to [rest] is not taken. *)
Theorem defensive_branch_attacks_when_alive
    (world_state memory : value) (o : observation) :
  observe world_state = Some o ->
  wf_memory memory = true ->
  defensive o = true ->
  1 <= energy o ->
  exists nbrs t target_dir memory',
    getitem world_state "neighbors" = OK nbrs /\
    threatening_neighbors nbrs (VInt (energy o)) = OK t /\
    t <> [] /\
    choose_action world_state memory = OK (attack_action target_dir, memory').
Proof.
  intros Hobs Hwf Hdef Halive.
  assert (Hne : threatening o <> []).
  { unfold defensive in Hdef. apply andb_true_iff in Hdef as [_ Hthreats].
    apply Nat.ltb_lt in Hthreats.
    apply threat_count_positive in Hthreats as (x & Hin & Hle).
    assert (Hx : In x (threatening o)).
    { apply filter_In. split; [exact Hin|].
      apply andb_true_iff. split; [apply Z.ltb_lt|apply Z.leb_le]; lia. }
    intros Hnil. rewrite Hnil in Hx. destruct Hx. }
  destruct (defensive_attack _ _ _ Hobs Hwf Hdef Hne)
    as (target_dir & memory' & Hact & _).
  apply observe_inv in Hobs as (d & its & -> & Hn & _ & _ & Hits & Hnd).
  destruct (threatening_neighbors_typed its o Hits Hnd) as (t & Ht & Hty & _).
  exists (VDict its), t, target_dir, memory'.
  cbn [getitem]. rewrite Hn. repeat split; try assumption.
  intros ->. simpl in Hty. congruence.
Qed.

Lemma defensive_branch_attacks_when_alive_witness :
  exists nbrs t target_dir memory',
    getitem outnumbered "neighbors" = OK nbrs /\
    threatening_neighbors nbrs (VInt 6) = OK t /\
    t <> [] /\
    choose_action outnumbered some_memory = OK (attack_action target_dir, memory').
Proof.
  apply (defensive_branch_attacks_when_alive outnumbered some_memory outnumbered_obs);
    [reflexivity | reflexivity | reflexivity | simpl; lia].
Defined.

(** ** The visited positions over a whole game *)

Lemma length_lastn {A : Type} (n : nat) (xs : list A) :
  length (lastn n xs) = Nat.min n (length xs).
Proof. unfold lastn. rewrite length_skipn. lia. Qed.

Lemma lastn_all {A : Type} (n : nat) (xs : list A) :
  (length xs <= n)%nat -> lastn n xs = xs.
Proof.
  intros Hle. unfold lastn.
  replace (length xs - n)%nat with 0%nat by lia. reflexivity.
Qed.

(** Slicing after every append keeps what slicing once at the end keeps. *)
Lemma lastn_app_lastn {A : Type} (n : nat) (xs ys : list A) :
  lastn n (lastn n xs ++ ys) = lastn n (xs ++ ys).
Proof.
  unfold lastn at 1 3.
  rewrite !length_app, length_lastn, !skipn_app, length_lastn.
  unfold lastn. rewrite skipn_skipn. f_equal; f_equal; lia.
Qed.

Lemma lastn_split {A : Type} (n : nat) (xs : list A) :
  exists older, xs = older ++ lastn n xs.
Proof.
  exists (firstn (length xs - n) xs). unfold lastn.
  symmetry. apply firstn_skipn.
Qed.

Lemma visited_spec_decide (o : observation) (memory : value) :
  wf_memory memory = true ->
  visited (snd (spec_decide o memory)) = lastn 20 (visited memory ++ [position o]).
Proof.
  intros Hwf. apply wf_memory_inv in Hwf as (d & -> & _).
  unfold visited at 1. rewrite spec_decide_visited. reflexivity.
Qed.

Lemma play_visited (observations : list value) (os : list observation) (memory : value) :
  Forall2 (fun world_state o => observe world_state = Some o) observations os ->
  wf_memory memory = true ->
  (length (visited memory) <= 20)%nat ->
  exists memory',
    play observations memory = OK memory' /\
    wf_memory memory' = true /\
    visited memory' = lastn 20 (visited memory ++ map position os) /\
    (observations <> [] ->
     field "positions_visited" memory' = Some (VList (visited memory'))).
Proof.
  intros Hobs. revert memory.
  induction Hobs as [|world_state o observations os Ho _ IH]; intros memory Hwf Hlen.
  - exists memory. cbn [play map]. rewrite app_nil_r, lastn_all by exact Hlen.
    repeat split; [exact Hwf|contradiction].
  - cbn [play map]. rewrite (choose_action_spec_decide _ _ _ Ho Hwf). cbn [bind].
    pose proof (wf_memory_spec_decide o memory Hwf) as Hwf1.
    pose proof (visited_spec_decide o memory Hwf) as Hvis1.
    destruct (IH (snd (spec_decide o memory)) Hwf1) as (memory' & Hplay & Hwf' & Hvis & Hfield).
    { rewrite Hvis1, length_lastn. lia. }
    exists memory'. split; [exact Hplay|]. split; [exact Hwf'|]. split.
    + rewrite Hvis, Hvis1, lastn_app_lastn, <- app_assoc. reflexivity.
    + intros _. destruct observations as [|world_state' observations].
      * cbn [play] in Hplay. injection Hplay as <-.
        apply wf_memory_inv in Hwf as (d & -> & _).
        rewrite spec_decide_visited. unfold visited at 2.
        rewrite spec_decide_visited. reflexivity.
      * apply Hfield. discriminate.
Qed.

(** C4. Starting from the empty memory, after any sequence of turns on
    well-formed observations [positions_visited] holds at most 20 positions;
    up to 20 turns it holds every observed position, and after more than 20
    turns it holds exactly the 20 most recently observed positions, oldest
    first. *)
Theorem positions_visited_keeps_last_20
    (observations : list value) (os : list observation) :
  Forall2 (fun world_state o => observe world_state = Some o) observations os ->
  exists memory,
    play observations (VDict []) = OK memory /\
    (observations <> [] ->
     field "positions_visited" memory = Some (VList (visited memory))) /\
    (length (visited memory) <= 20)%nat /\
    ((length observations <= 20)%nat -> visited memory = map position os) /\
    ((20 < length observations)%nat ->
     length (visited memory) = 20%nat /\
     exists older, map position os = older ++ visited memory).
Proof.
  intros Hobs.
  destruct (play_visited observations os (VDict []) Hobs) as
    (memory & Hplay & _ & Hvis & Hfield); [reflexivity|simpl; lia|].
  cbn [visited field dict_lookup app] in Hvis.
  change (visited (VDict [])) with (@nil value) in Hvis. cbn [app] in Hvis.
  pose proof (Forall2_length _ _ _ Hobs) as Hlen.
  exists memory. split; [exact Hplay|]. split; [exact Hfield|].
  rewrite Hvis, length_lastn, length_map, <- Hlen.
  split; [lia|]. split.
  - intros Hshort. apply lastn_all. rewrite length_map. lia.
  - intros Hlong. split; [lia|]. apply lastn_split.
Qed.

Lemma positions_visited_keeps_last_20_witness :
  exists memory,
    play walk (VDict []) = OK memory /\
    (walk <> [] ->
     field "positions_visited" memory = Some (VList (visited memory))) /\
    (length (visited memory) <= 20)%nat /\
    ((length walk <= 20)%nat -> visited memory = map position walk_obs) /\
    ((20 < length walk)%nat ->
     length (visited memory) = 20%nat /\
     exists older, map position walk_obs = older ++ visited memory).
Proof.
  apply (positions_visited_keeps_last_20 walk walk_obs).
  unfold walk, walk_obs. cbn [map seq]. repeat constructor.
Defined.

Example walk_visited :
  (visited <$> match play walk (VDict []) with OK m => Some m | Raise _ => None end) =
  Some (map (fun n => VInt (Z.of_nat n)) (seq 2 20)).
Proof. vm_compute. reflexivity. Qed.

(** ** The memory store *)

Lemma pow2_14000_le : 2 ^ 14000 <= 10 ^ 4300.
Proof.
  change 14000 with (140 * 100). change 4300 with (43 * 100).
  rewrite !Z.pow_mul_r by discriminate.
  apply Z.pow_le_mono_l. split.
  - apply Z.pow_nonneg. discriminate.
  - apply Z.leb_le. reflexivity.
Qed.

(** The shortcut in [int_to_text_ok] does not change its answer: an int is
    passed exactly when it has at most 4300 decimal digits. *)
Lemma int_to_text_ok_spec (n : Z) :
  int_to_text_ok n = (Z.abs n <? 10 ^ 4300).
Proof.
  unfold int_to_text_ok.
  destruct (Z.ltb_spec (Z.log2 (Z.abs n)) 14000) as [Hlog|Hlog]; [|reflexivity].
  symmetry. apply Z.ltb_lt.
  apply Z.lt_le_trans with (2 ^ 14000); [|exact pow2_14000_le].
  destruct (Z.eq_dec (Z.abs n) 0) as [->|Hnz].
  - apply Z.pow_pos_nonneg; [reflexivity|discriminate].
  - assert (Hpos : 0 < Z.abs n) by (pose proof (Z.abs_nonneg n); lia).
    destruct (Z.log2_spec (Z.abs n) Hpos) as [_ Hlt].
    apply Z.lt_le_trans with (2 ^ Z.succ (Z.log2 (Z.abs n))); [exact Hlt|].
    apply Z.pow_le_mono_r; [reflexivity|]. apply Z.le_succ_l. exact Hlog.
Qed.

Lemma int_to_text_ok_limit : int_to_text_ok (10 ^ 4300) = false.
Proof.
  rewrite int_to_text_ok_spec.
  rewrite Z.abs_eq by (apply Z.pow_nonneg; discriminate).
  apply Z.ltb_irrefl.
Qed.

Lemma json_dump_ok_astronomic : json_dump_ok astronomic_memory = false.
Proof.
  unfold astronomic_memory. cbn [json_dump_ok forallb].
  rewrite int_to_text_ok_limit. reflexivity.
Qed.

(** A dump that fails on a file that was opened leaves nothing to load. *)
Lemma save_memory_cut_short (agent_id : string) (memory : value) (fs : filesystem) :
  writable fs (MEMORY_FILE agent_id) = true ->
  dumps fs memory = false ->
  load_memory agent_id (save_memory agent_id memory fs) = VDict [] /\
  (readable fs (MEMORY_FILE agent_id) = true ->
   files (save_memory agent_id memory fs) !! MEMORY_FILE agent_id = Some Unparsable).
Proof.
  intros Hw Hd. unfold load_memory, save_memory. rewrite Hw, Hd. cbn [files].
  destruct (readable fs (MEMORY_FILE agent_id)).
  - rewrite lookup_insert_eq. split; reflexivity.
  - rewrite lookup_delete_eq. split; [reflexivity|discriminate].
Qed.




(** ** Determinism *)

Lemma same_mapping_refl (a : value) : same_mapping a a.
Proof. left. reflexivity. Qed.

Lemma agree_refl {A : Type} (R : A -> A -> Prop) (r : result A) :
  (forall a, R a a) -> agree R r r.
Proof. intros HR. destruct r; cbn; auto. Qed.

Lemma agree_bind {A B : Type} (R : A -> A -> Prop) (S : B -> B -> Prop)
    (r1 r2 : result A) (k1 k2 : A -> result B) :
  agree R r1 r2 ->
  (forall a1 a2, R a1 a2 -> agree S (k1 a1) (k2 a2)) ->
  agree S (bind r1 k1) (bind r2 k2).
Proof.
  intros Hr Hk. destruct r1 as [a1|e1], r2 as [a2|e2]; cbn in *;
    try contradiction; auto.
Qed.

Lemma getitem_same_mapping (a b : value) (key : string) :
  same_mapping a b -> getitem a key = getitem b key.
Proof.
  intros [->|(d1 & d2 & -> & -> & Hd)]; [reflexivity|].
  cbn [getitem]. rewrite Hd. reflexivity.
Qed.

Lemma get_same_mapping (a b : value) (key : string) (default : value) :
  same_mapping a b -> agree eq (get a key default) (get b key default).
Proof.
  intros [->|(d1 & d2 & -> & -> & Hd)]; [apply agree_refl; reflexivity|].
  cbn [get agree]. rewrite Hd. reflexivity.
Qed.

Lemma setitem_same_mapping (a b : value) (key : string) (v : value) :
  same_mapping a b -> agree same_mapping (setitem a key v) (setitem b key v).
Proof.
  intros [->|(d1 & d2 & -> & -> & Hd)]; [apply agree_refl, same_mapping_refl|].
  cbn [setitem agree]. right. eexists _, _. split; [reflexivity|].
  split; [reflexivity|]. intros k. rewrite !dict_lookup_store, Hd. reflexivity.
Qed.

Lemma increment_same_mapping (a b : value) (key : string) :
  same_mapping a b -> agree same_mapping (increment a key) (increment b key).
Proof.
  intros Hab. unfold increment.
  apply (agree_bind eq); [apply get_same_mapping, Hab|]. intros old _ <-.
  apply (agree_bind eq); [apply agree_refl; reflexivity|]. intros new _ <-.
  apply setitem_same_mapping, Hab.
Qed.

Lemma update_memory_same_mapping (a b position : value) :
  same_mapping a b ->
  agree same_mapping (update_memory a position) (update_memory b position).
Proof.
  intros Hab. unfold update_memory.
  apply (agree_bind same_mapping); [apply increment_same_mapping, Hab|].
  intros a1 b1 H1.
  apply (agree_bind eq); [apply get_same_mapping, H1|]. intros visited _ <-.
  apply (agree_bind same_mapping); [apply setitem_same_mapping, H1|].
  intros a2 b2 H2.
  apply (agree_bind eq).
  { rewrite (getitem_same_mapping a2 b2 _ H2). apply agree_refl. reflexivity. }
  intros visited' _ <-.
  apply (agree_bind eq); [apply agree_refl; reflexivity|]. intros xs _ <-.
  apply (agree_bind same_mapping); [apply setitem_same_mapping, H2|].
  intros a3 b3 H3. apply setitem_same_mapping, H3.
Qed.

Lemma strategy_same_mapping (nbrs my_energy : value) (threats : nat) (a b : value) :
  same_mapping a b ->
  agree same_turn (strategy nbrs my_energy threats a) (strategy nbrs my_energy threats b).
Proof.
  intros Hab. unfold strategy.
  assert (Hbump : forall key action,
            agree same_turn
              (memory <- increment a key ;; OK (action, memory))
              (memory <- increment b key ;; OK (action, memory))).
  { intros key action.
    apply (agree_bind same_mapping); [apply increment_same_mapping, Hab|].
    intros a' b' H'. split; [reflexivity|exact H']. }
  assert (Hkeep : forall action, agree same_turn (OK (action, a)) (OK (action, b))).
  { intros action. split; [reflexivity|exact Hab]. }
  apply (agree_bind eq); [apply agree_refl; reflexivity|]. intros emergency _ <-.
  destruct emergency.
  - apply (agree_bind eq); [apply agree_refl; reflexivity|].
    intros can_replicate _ <-. destruct can_replicate; [apply Hbump|apply Hkeep].
  - apply (agree_bind eq); [apply agree_refl; reflexivity|].
    intros high_energy _ <-. destruct high_energy; [apply Hbump|].
    destruct (0 <? threats)%nat; [|apply Hbump].
    apply (agree_bind eq); [apply agree_refl; reflexivity|].
    intros threatening _ <-. destruct threatening; [apply Hkeep|].
    apply (agree_bind eq); [apply agree_refl; reflexivity|].
    intros target_dir _ <-. apply Hbump.
Qed.

(** C8. [choose_action] is deterministic: two calls with identical
    observations and identical memories return identical actions and
    identical updated memories.  Identity is taken as identity of mappings:
    the order in which an observation or a memory lists its keys does not
    count.  Then two calls either raise the same exception or return the same
    action and memories that are the same mapping; and when the two memories
    are equal, so are the two outcomes, returned memories included. *)
Theorem choose_action_deterministic (world_state1 world_state2 memory1 memory2 : value) :
  same_mapping world_state1 world_state2 ->
  same_mapping memory1 memory2 ->
  agree same_turn (choose_action world_state1 memory1)
                  (choose_action world_state2 memory2) /\
  (memory1 = memory2 ->
   choose_action world_state1 memory1 = choose_action world_state2 memory2).
Proof.
  intros Hws Hm. unfold choose_action.
  rewrite !(getitem_same_mapping world_state1 world_state2 _ Hws).
  split; [|intros ->; reflexivity].
  apply (agree_bind eq); [apply agree_refl; reflexivity|]. intros neighbors _ <-.
  apply (agree_bind eq); [apply agree_refl; reflexivity|]. intros my_energy _ <-.
  apply (agree_bind eq); [apply agree_refl; reflexivity|]. intros position _ <-.
  apply (agree_bind same_mapping); [apply update_memory_same_mapping, Hm|].
  intros a b Hab.
  apply (agree_bind eq); [apply agree_refl; reflexivity|]. intros infos _ <-.
  apply (agree_bind eq); [apply agree_refl; reflexivity|]. intros threats _ <-.
  apply strategy_same_mapping, Hab.
Qed.

Lemma two_neighbors_reordered_same : same_mapping two_neighbors two_neighbors_reordered.
Proof.
  right. eexists _, _. split; [reflexivity|]. split; [reflexivity|].
  intros k. cbn [dict_lookup]. compare_keys k; reflexivity.
Qed.

Lemma some_memory_reordered_same : same_mapping some_memory some_memory_reordered.
Proof.
  right. eexists _, _. split; [reflexivity|]. split; [reflexivity|].
  intros k. cbn [dict_lookup]. compare_keys k; reflexivity.
Qed.

Lemma choose_action_deterministic_witness :
  agree same_turn (choose_action two_neighbors some_memory)
                  (choose_action two_neighbors_reordered some_memory_reordered) /\
  (some_memory = some_memory_reordered ->
   choose_action two_neighbors some_memory =
   choose_action two_neighbors_reordered some_memory_reordered).
Proof.
  apply (choose_action_deterministic two_neighbors two_neighbors_reordered
           some_memory some_memory_reordered).
  - exact two_neighbors_reordered_same.
  - exact some_memory_reordered_same.
Defined.

(** The two calls of the witness, evaluated: the same action, and the same
    fields in memories that list them differently. *)
Example reordered_calls :
  choose_action two_neighbors some_memory =
    OK (attack_action "S",
        VDict [("turns_played", VInt 42); ("peaceful_rests", VInt 7);
               ("notes", VStr "kept");
               ("positions_visited", VList [VList [VInt 2; VInt 7]]);
               ("defensive_attacks", VInt 1)]) /\
  choose_action two_neighbors_reordered some_memory_reordered =
    OK (attack_action "S",
        VDict [("notes", VStr "kept"); ("peaceful_rests", VInt 7);
               ("turns_played", VInt 42);
               ("positions_visited", VList [VList [VInt 2; VInt 7]]);
               ("defensive_attacks", VInt 1)]).
Proof. split; reflexivity. Qed.

(** ** What a successful call may change, for arbitrary arguments *)

Lemma increment_inv (memory memory' : value) (key : string) :
  increment memory key = OK memory' ->
  exists d v, memory = VDict d /\ memory' = VDict (dict_store key v d).
Proof.
  unfold increment. intros H.
  destruct memory as [| | | | |d]; try discriminate H.
  bind_inv H. bind_inv H. cbn [setitem] in H. injection H as <-. eauto.
Qed.

Lemma update_memory_inv (memory memory' position : value) :
  update_memory memory position = OK memory' ->
  exists d v w,
    memory = VDict d /\
    memory' = VDict (dict_store "positions_visited" w (dict_store "turns_played" v d)).
Proof.
  unfold update_memory. intros H.
  bind_inv H. apply increment_inv in E as (d & v & -> & ->).
  cbn [get setitem getitem bind] in H.
  rewrite dict_lookup_store_eq in H. cbn [bind] in H.
  bind_inv H. cbn [setitem] in H. injection H as <-.
  rewrite !dict_store_store. eauto.
Qed.

Lemma strategy_inv (nbrs my_energy : value) (threats : nat)
    (memory action memory' : value) :
  strategy nbrs my_energy threats memory = OK (action, memory') ->
  memory' = memory \/
  exists c, In c branch_counters /\ increment memory c = OK memory'.
Proof.
  unfold strategy. intros H.
  bind_inv H. destruct a.
  - bind_inv H. destruct a.
    + bind_inv H. injection H as _ <-. right.
      exists "emergency_replications". split; [simpl; tauto|assumption].
    + injection H as _ <-. left. reflexivity.
  - bind_inv H. destruct a.
    + bind_inv H. injection H as _ <-. right.
      exists "replications_made". split; [simpl; tauto|assumption].
    + destruct (0 <? threats)%nat.
      * bind_inv H. destruct a as [|x t].
        -- injection H as _ <-. left. reflexivity.
        -- bind_inv H. bind_inv H. injection H as _ <-. right.
           exists "defensive_attacks". split; [simpl; tauto|assumption].
      * bind_inv H. injection H as _ <-. right.
        exists "peaceful_rests". split; [simpl; tauto|assumption].
Qed.

(** C10. A successful call of [choose_action] changes only [turns_played],
    [positions_visited] and at most one of the four branch counters: every
    other key of the memory is mapped to the same value as before, and no
    two distinct branch counters both change. *)
Theorem choose_action_frame (world_state memory action memory' : value) :
  choose_action world_state memory = OK (action, memory') ->
  (forall k, ~ In k (bookkeeping_keys ++ branch_counters) ->
     field k memory' = field k memory) /\
  (forall c1 c2, In c1 branch_counters -> In c2 branch_counters ->
     field c1 memory' <> field c1 memory ->
     field c2 memory' <> field c2 memory ->
     c1 = c2).
Proof.
  unfold choose_action. intros H.
  do 3 bind_inv H. bind_inv H. bind_inv H. bind_inv H.
  apply update_memory_inv in E2 as (d & v & w & -> & ->).
  assert (Hbook : forall k, ~ In k bookkeeping_keys ->
            dict_lookup k (dict_store "positions_visited" w
                             (dict_store "turns_played" v d)) = dict_lookup k d).
  { intros k Hk. rewrite !dict_lookup_store_ne; [reflexivity| |];
      intros ->; apply Hk; simpl; tauto. }
  assert (Hbranch : forall c, In c branch_counters -> ~ In c bookkeeping_keys).
  { intros c Hc. cbn [branch_counters In] in Hc.
    destruct Hc as [<-|[<-|[<-|[<-|[]]]]]; simpl; intuition discriminate. }
  apply strategy_inv in H as [->|(c & Hc & Hinc)].
  - split.
    + intros k Hk. apply Hbook. contradict Hk. apply in_or_app. left. exact Hk.
    + intros c1 c2 Hc1 _ Hch1 _. exfalso. apply Hch1.
      apply Hbook, Hbranch, Hc1.
  - apply increment_inv in Hinc as (d' & u & [= <-] & ->).
    assert (Hother : forall k, k <> c -> ~ In k bookkeeping_keys ->
              field k (VDict (dict_store c u
                 (dict_store "positions_visited" w (dict_store "turns_played" v d)))) =
              field k (VDict d)).
    { intros k Hne Hk. cbn [field]. rewrite dict_lookup_store_ne by exact Hne.
      apply Hbook, Hk. }
    split.
    + intros k Hk. apply Hother.
      * intros ->. apply Hk. apply in_or_app. right. exact Hc.
      * contradict Hk. apply in_or_app. left. exact Hk.
    + intros c1 c2 Hc1 Hc2 Hch1 Hch2.
      destruct (String.eqb_spec c1 c) as [->|Hne1].
      * destruct (String.eqb_spec c2 c) as [->|Hne2]; [reflexivity|].
        exfalso. apply Hch2, Hother; [exact Hne2|apply Hbranch, Hc2].
      * exfalso. apply Hch1, Hother; [exact Hne1|apply Hbranch, Hc1].
Qed.

Lemma choose_action_frame_witness :
  (forall k, ~ In k (bookkeeping_keys ++ branch_counters) ->
     field k (VDict [("turns_played", VInt 42); ("peaceful_rests", VInt 7);
                     ("notes", VStr "kept");
                     ("positions_visited", VList [VList [VInt 2; VInt 7]]);
                     ("defensive_attacks", VInt 1)]) = field k some_memory) /\
  (forall c1 c2, In c1 branch_counters -> In c2 branch_counters ->
     field c1 (VDict [("turns_played", VInt 42); ("peaceful_rests", VInt 7);
                      ("notes", VStr "kept");
                      ("positions_visited", VList [VList [VInt 2; VInt 7]]);
                      ("defensive_attacks", VInt 1)]) <> field c1 some_memory ->
     field c2 (VDict [("turns_played", VInt 42); ("peaceful_rests", VInt 7);
                      ("notes", VStr "kept");
                      ("positions_visited", VList [VList [VInt 2; VInt 7]]);
                      ("defensive_attacks", VInt 1)]) <> field c2 some_memory ->
     c1 = c2).
Proof.
  apply (choose_action_frame two_neighbors some_memory (attack_action "S")).
  reflexivity.
Defined.

(** ** The main loop and failures *)

(** C1, as stated, fails: after the fallback action the program prints
    nothing more; the third line is never processed, whereas a loop that
    went on would answer it. *)
Lemma main_stops_after_fallback :
  stdout (main ∅ three_lines fresh_world) =
    [rest_action;
     VDict [("action", VStr "rest"); ("message", VStr "Error: 'neighbors'")]] /\
  stdout (spec_main ∅ three_lines fresh_world) =
    [rest_action;
     VDict [("action", VStr "rest"); ("message", VStr "Error: 'neighbors'")];
     rest_action] /\
  stdout (main ∅ three_lines fresh_world) <>
  stdout (spec_main ∅ three_lines fresh_world).
Proof. repeat split. discriminate. Qed.

Lemma main_loop_first_failure (agent_id : string) (observations : list value)
    (line : result value) (rest : list (result value))
    (memory0 memory : value) (e : exn) (w : world) :
  play observations memory0 = OK memory ->
  (world_state <- line ;; choose_action world_state memory) = Raise e ->
  exists w',
    main_loop agent_id (map OK observations ++ line :: rest) memory0 w = (w', Some e) /\
    stdout w' = stdout w ++ turn_actions observations memory0.
Proof.
  revert memory0 w.
  induction observations as [|world_state observations IH]; intros memory0 w Hplay Hfail.
  - injection Hplay as ->. exists w. cbn [map app main_loop turn_actions].
    rewrite Hfail, app_nil_r. split; reflexivity.
  - cbn [play] in Hplay. cbn [map app main_loop turn_actions bind].
    destruct (choose_action world_state memory0) as [[action memory1]|] eqn:Hturn;
      [cbn [bind snd] in Hplay|discriminate Hplay].
    destruct (IH memory1
                (print action {| fs := save_memory agent_id memory1 (fs w);
                                 stdout := stdout w |}) Hplay Hfail)
      as (w' & Hloop & Hout).
    exists w'. split; [exact Hloop|].
    rewrite Hout. cbn [print stdout]. rewrite <- app_assoc. reflexivity.
Qed.

(** C1, amended.  If processing an input line fails, the lines before it
    having been answered one action each, the program prints the fallback
    action, [rest] with the message "Error: " followed by the description of
    the failure, and then stops: nothing is printed for the lines after the
    failing one. *)
Theorem main_fallback_then_stop (environ : gmap string string)
    (observations : list value) (line : result value) (rest : list (result value))
    (memory : value) (e : exn) (w : world) :
  play observations (load_memory (AGENT_ID environ) (fs w)) = OK memory ->
  (world_state <- line ;; choose_action world_state memory) = Raise e ->
  stdout (main environ (map OK observations ++ line :: rest) w) =
  stdout w ++
  turn_actions observations (load_memory (AGENT_ID environ) (fs w)) ++
  [VDict [("action", VStr "rest"); ("message", VStr ("Error: " +:+ exn_str e))]].
Proof.
  intros Hplay Hfail. unfold main.
  destruct (main_loop_first_failure (AGENT_ID environ) observations line rest
              _ _ e w Hplay Hfail) as (w' & -> & Hout).
  cbn [print stdout]. rewrite Hout, <- app_assoc. reflexivity.
Qed.

Lemma main_fallback_then_stop_witness :
  stdout (main ∅ three_lines fresh_world) =
  [] ++ turn_actions [quiet] (VDict []) ++
  [VDict [("action", VStr "rest");
          ("message", VStr ("Error: " +:+ exn_str (KeyError "neighbors")))]].
Proof.
  apply (main_fallback_then_stop ∅ [quiet] (OK (VDict [])) [OK quiet]
           (VDict [("turns_played", VInt 1); ("positions_visited", VList [VInt 0]);
                   ("peaceful_rests", VInt 1)])
           (KeyError "neighbors") fresh_world); reflexivity.
Defined.

(** * Further properties of the decision engine *)

Lemma field_bump_bookkeeping (c k : string) (p : value) (d : list (string * value)) :
  In c branch_counters -> In k branch_counters ->
  field k (bump c (bookkeeping p (VDict d))) =
  if String.eqb k c then Some (VInt (counter c (VDict d) + 1)) else field k (VDict d).
Proof.
  intros Hc Hk.
  destruct (bookkeeping_dict p d) as [d' Hd']. rewrite Hd'.
  rewrite field_bump, <- Hd', field_bookkeeping.
  rewrite (counter_bookkeeping c _ _ Hc).
  destruct (branch_counter_not_bookkeeping k Hk) as [-> ->]. reflexivity.
Qed.

Lemma field_only_bookkeeping (k : string) (p : value) (d : list (string * value)) :
  In k branch_counters ->
  field k (bookkeeping p (VDict d)) = field k (VDict d).
Proof.
  intros Hk. rewrite field_bookkeeping.
  destruct (branch_counter_not_bookkeeping k Hk) as [-> ->]. reflexivity.
Qed.

(** The branch taken, read off the typed observation. *)
Lemma emergency_false_of_high_energy (o : observation) :
  10 <= energy o -> emergency o = false.
Proof.
  intros Hhigh. unfold emergency. apply andb_false_iff. right.
  apply Z.leb_gt. lia.
Qed.

(** X1. With an energy of 10 or more the agent replicates whatever its
    neighbours are: [replications_made] goes up by one and the other three
    branch counters are as they were. *)
Theorem safe_growth_replicates (world_state memory : value) (o : observation) :
  observe world_state = Some o ->
  wf_memory memory = true ->
  10 <= energy o ->
  exists memory',
    choose_action world_state memory = OK (replicate_action, memory') /\
    field "replications_made" memory' =
      Some (VInt (counter "replications_made" memory + 1)) /\
    forall c, In c branch_counters -> c <> "replications_made" ->
      field c memory' = field c memory.
Proof.
  intros Hobs Hwf Hhigh.
  rewrite (choose_action_spec_decide _ _ _ Hobs Hwf).
  apply wf_memory_inv in Hwf as (d & -> & _).
  unfold spec_decide. rewrite (emergency_false_of_high_energy o Hhigh).
  apply Z.leb_le in Hhigh. rewrite Hhigh.
  eexists. split; [reflexivity|]. cbn [snd]. split.
  - rewrite field_bump_bookkeeping by (simpl; tauto). reflexivity.
  - intros c Hc Hne. rewrite field_bump_bookkeeping by (simpl; tauto).
    apply String.eqb_neq in Hne. rewrite Hne. reflexivity.
Qed.

Lemma safe_growth_replicates_witness :
  exists memory',
    choose_action strong_and_surrounded some_memory = OK (replicate_action, memory') /\
    field "replications_made" memory' = Some (VInt 1) /\
    forall c, In c branch_counters -> c <> "replications_made" ->
      field c memory' = field c some_memory.
Proof.
  apply (safe_growth_replicates strong_and_surrounded some_memory
           strong_and_surrounded_obs); [reflexivity | reflexivity | simpl; lia].
Defined.

(** X2. With no neighbour at least as strong as the agent and an energy
    below 10, the agent rests: [peaceful_rests] goes up by one and the other
    three branch counters are as they were.  This includes the case of no
    neighbour at all. *)
Theorem peaceful_rest (world_state memory : value) (o : observation) :
  observe world_state = Some o ->
  wf_memory memory = true ->
  threat_count o = 0%nat ->
  energy o < 10 ->
  exists memory',
    choose_action world_state memory = OK (rest_action, memory') /\
    field "peaceful_rests" memory' =
      Some (VInt (counter "peaceful_rests" memory + 1)) /\
    forall c, In c branch_counters -> c <> "peaceful_rests" ->
      field c memory' = field c memory.
Proof.
  intros Hobs Hwf Hthreats Hlow.
  rewrite (choose_action_spec_decide _ _ _ Hobs Hwf).
  apply wf_memory_inv in Hwf as (d & -> & _).
  unfold spec_decide, emergency. rewrite Hthreats. cbn [Nat.leb Nat.ltb andb].
  apply Z.leb_gt in Hlow. rewrite Hlow.
  eexists. split; [reflexivity|]. cbn [snd]. split.
  - rewrite field_bump_bookkeeping by (simpl; tauto). reflexivity.
  - intros c Hc Hne. rewrite field_bump_bookkeeping by (simpl; tauto).
    apply String.eqb_neq in Hne. rewrite Hne. reflexivity.
Qed.

Lemma peaceful_rest_witness :
  exists memory',
    choose_action quiet some_memory = OK (rest_action, memory') /\
    field "peaceful_rests" memory' = Some (VInt 8) /\
    forall c, In c branch_counters -> c <> "peaceful_rests" ->
      field c memory' = field c some_memory.
Proof.
  apply (peaceful_rest quiet some_memory
           {| position := VInt 0; energy := 1; neighbors := [] |});
    [reflexivity | reflexivity | reflexivity | simpl; lia].
Defined.

(** X3. An agent with at least two threats and an energy below 3 rests and
    none of the four branch counters records the turn. *)
Theorem emergency_without_energy_rests (world_state memory : value) (o : observation) :
  observe world_state = Some o ->
  wf_memory memory = true ->
  (2 <= threat_count o)%nat ->
  energy o < 3 ->
  exists memory',
    choose_action world_state memory = OK (rest_action, memory') /\
    forall c, In c branch_counters -> field c memory' = field c memory.
Proof.
  intros Hobs Hwf Hthreats Hlow.
  rewrite (choose_action_spec_decide _ _ _ Hobs Hwf).
  apply wf_memory_inv in Hwf as (d & -> & _).
  unfold spec_decide, emergency.
  apply Nat.leb_le in Hthreats. rewrite Hthreats.
  assert (Hle : (energy o <=? 4) = true) by (apply Z.leb_le; lia).
  assert (Hge : (3 <=? energy o) = false) by (apply Z.leb_gt; lia).
  rewrite Hle, Hge. cbn [andb].
  eexists. split; [reflexivity|]. cbn [snd].
  intros c Hc. apply field_only_bookkeeping, Hc.
Qed.

Lemma emergency_without_energy_rests_witness :
  exists memory',
    choose_action weak_and_cornered some_memory = OK (rest_action, memory') /\
    forall c, In c branch_counters -> field c memory' = field c some_memory.
Proof.
  apply (emergency_without_energy_rests weak_and_cornered some_memory
           weak_and_cornered_obs);
    [reflexivity | reflexivity | vm_compute; lia | simpl; lia].
Defined.

(** The action of a turn depends on the energy and the neighbours alone. *)
Lemma spec_decide_action (o1 o2 : observation) (memory1 memory2 : value) :
  energy o1 = energy o2 -> neighbors o1 = neighbors o2 ->
  fst (spec_decide o1 memory1) = fst (spec_decide o2 memory2).
Proof.
  intros He Hn. unfold spec_decide, emergency, threat_count, threatening.
  rewrite He, Hn.
  repeat match goal with
         | |- context [if ?b then _ else _] => destruct b
         | |- context [match ?l with [] => _ | _ :: _ => _ end] => destruct l
         end; reflexivity.
Qed.

(** X4. The strategy looks at the energy and the neighbours only: two calls
    whose observations agree on both choose the same action, whatever the
    positions and whatever the two memories hold. *)
Theorem action_ignores_memory_and_position
    (world_state1 world_state2 memory1 memory2 : value) (o1 o2 : observation) :
  observe world_state1 = Some o1 ->
  observe world_state2 = Some o2 ->
  wf_memory memory1 = true ->
  wf_memory memory2 = true ->
  energy o1 = energy o2 ->
  neighbors o1 = neighbors o2 ->
  exists action memory1' memory2',
    choose_action world_state1 memory1 = OK (action, memory1') /\
    choose_action world_state2 memory2 = OK (action, memory2').
Proof.
  intros Hobs1 Hobs2 Hwf1 Hwf2 He Hn.
  rewrite (choose_action_spec_decide _ _ _ Hobs1 Hwf1).
  rewrite (choose_action_spec_decide _ _ _ Hobs2 Hwf2).
  pose proof (spec_decide_action o1 o2 memory1 memory2 He Hn) as Hact.
  destruct (spec_decide o1 memory1) as [a1 m1], (spec_decide o2 memory2) as [a2 m2].
  cbn [fst] in Hact. subst a2. eauto.
Qed.

Lemma action_ignores_memory_and_position_witness :
  exists action memory1' memory2',
    choose_action two_neighbors some_memory = OK (action, memory1') /\
    choose_action two_neighbors_elsewhere (VDict []) = OK (action, memory2').
Proof.
  apply (action_ignores_memory_and_position two_neighbors two_neighbors_elsewhere
           some_memory (VDict []) two_neighbors_obs
           {| position := VStr "b4"; energy := 5; neighbors := [("N", 5); ("S", 3)] |});
    reflexivity.
Defined.

Lemma first_min_entry (d : string) (l : list (string * Z)) :
  first_min d l ->
  exists n, In (d, n) l /\ Forall (fun x => n <= snd x) l.
Proof.
  intros (pre & n & post & -> & Hpre & Hpost). exists n. split.
  - apply in_or_app. right. left. reflexivity.
  - apply Forall_app. split.
    + eapply Forall_impl; [exact Hpre|]. cbn beta. intros x Hx. lia.
    + constructor; [cbn [snd]; lia|exact Hpost].
Qed.

(** X5. The agent only ever attacks a live neighbour within reach: when the
    action is an attack, its target is a neighbour whose energy is positive
    and at least the agent's energy minus 2, no threatening neighbour has less
    energy than the target, and the agent's own energy is below 10. *)
Theorem attack_target_is_alive_and_weakest
    (world_state memory memory' : value) (o : observation) (target_dir : string) :
  observe world_state = Some o ->
  wf_memory memory = true ->
  choose_action world_state memory = OK (attack_action target_dir, memory') ->
  energy o < 10 /\
  exists n,
    In (target_dir, n) (neighbors o) /\
    0 < n /\
    energy o - 2 <= n /\
    forall d' n', In (d', n') (neighbors o) -> 0 < n' -> energy o - 2 <= n' -> n <= n'.
Proof.
  intros Hobs Hwf.
  rewrite (choose_action_spec_decide _ _ _ Hobs Hwf).
  unfold spec_decide.
  destruct (emergency o).
  { destruct (3 <=? energy o); discriminate. }
  destruct (10 <=? energy o) eqn:Hhigh; [discriminate|].
  apply Z.leb_gt in Hhigh.
  destruct (0 <? threat_count o)%nat; [|discriminate].
  destruct (threatening o) as [|x l] eqn:Hthr; [discriminate|].
  intros [= Ht _]. change (min_dir (x :: l) = target_dir) in Ht.
  split; [exact Hhigh|].
  destruct (first_min_entry target_dir (x :: l)) as (n & Hin & Hmin).
  { rewrite <- Ht. apply min_dir_first_min. discriminate. }
  clear Ht. exists n. rewrite <- Hthr in Hin, Hmin. unfold threatening in Hin, Hmin.
  apply filter_In in Hin as [Hin Hn]. cbn [snd] in Hn.
  apply andb_true_iff in Hn as [Hpos Hreach].
  apply Z.ltb_lt in Hpos. apply Z.leb_le in Hreach.
  split; [exact Hin|]. split; [exact Hpos|]. split; [exact Hreach|].
  intros d' n' Hin' Hpos' Hreach'.
  rewrite List.Forall_forall in Hmin.
  apply (Hmin (d', n')). apply filter_In. split; [exact Hin'|].
  cbn [snd]. apply andb_true_iff. split; [apply Z.ltb_lt|apply Z.leb_le]; assumption.
Qed.

Lemma attack_target_is_alive_and_weakest_witness :
  6 < 10 /\
  exists n,
    In ("E", n) [("N", 8); ("E", 4); ("S", 0)] /\
    0 < n /\
    6 - 2 <= n /\
    forall d' n', In (d', n') [("N", 8); ("E", 4); ("S", 0)] ->
                  0 < n' -> 6 - 2 <= n' -> n <= n'.
Proof.
  apply (attack_target_is_alive_and_weakest outnumbered some_memory
           (VDict [("turns_played", VInt 42); ("peaceful_rests", VInt 7);
                   ("notes", VStr "kept"); ("positions_visited", VList [VInt 0]);
                   ("defensive_attacks", VInt 1)])
           outnumbered_obs "E"); reflexivity.
Defined.

(** X6. The agent replicates exactly when its energy is at least 10, or is 3
    or 4 with at least two threats; in particular it never replicates with an
    energy below 3. *)
Theorem replicates_exactly_when (world_state memory : value) (o : observation) :
  observe world_state = Some o ->
  wf_memory memory = true ->
  exists action memory',
    choose_action world_state memory = OK (action, memory') /\
    (action = replicate_action <->
     10 <= energy o \/
     (3 <= energy o /\ energy o <= 4 /\ (2 <= threat_count o)%nat)).
Proof.
  intros Hobs Hwf.
  rewrite (choose_action_spec_decide _ _ _ Hobs Hwf).
  exists (fst (spec_decide o memory)), (snd (spec_decide o memory)).
  split; [destruct (spec_decide o memory); reflexivity|].
  unfold spec_decide, emergency.
  destruct (Nat.leb_spec 2 (threat_count o)) as [Ht|Ht];
  destruct (Z.leb_spec (energy o) 4) as [H4|H4];
  destruct (Z.leb_spec 3 (energy o)) as [H3|H3];
  destruct (Z.leb_spec 10 (energy o)) as [H10|H10];
  cbn [andb fst];
  try (split; [intros _; lia | reflexivity]);
  try (destruct (0 <? threat_count o)%nat; [destruct (threatening o)|]);
  cbn [fst]; (split; [discriminate | lia]).
Qed.

Lemma replicates_exactly_when_witness :
  exists action memory',
    choose_action cornered some_memory = OK (action, memory') /\
    (action = replicate_action <->
     10 <= 3 \/ (3 <= 3 /\ 3 <= 4 /\ (2 <= threat_count cornered_obs)%nat)).
Proof.
  apply (replicates_exactly_when cornered some_memory cornered_obs); reflexivity.
Defined.

(** * Invariants over a whole game *)

(** On well-formed observations a game is the iteration of [spec_decide],
    and the memory stays well formed. *)
Lemma play_fold (observations : list value) (os : list observation) (memory : value) :
  Forall2 (fun world_state o => observe world_state = Some o) observations os ->
  wf_memory memory = true ->
  play observations memory =
    OK (fold_left (fun m o => snd (spec_decide o m)) os memory) /\
  wf_memory (fold_left (fun m o => snd (spec_decide o m)) os memory) = true.
Proof.
  intros Hobs. revert memory.
  induction Hobs as [|world_state o observations os Ho _ IH]; intros memory Hwf.
  - split; [reflexivity|exact Hwf].
  - cbn [play fold_left]. rewrite (choose_action_spec_decide _ _ _ Ho Hwf).
    cbn [bind]. apply IH, wf_memory_spec_decide, Hwf.
Qed.

Lemma counter_bump (key k : string) (d : list (string * value)) :
  counter k (bump key (VDict d)) =
  if String.eqb k key then counter key (VDict d) + 1 else counter k (VDict d).
Proof.
  unfold counter at 1. rewrite field_bump.
  destruct (String.eqb k key); reflexivity.
Qed.

Lemma branch_total_bookkeeping (p : value) (d : list (string * value)) :
  branch_total (bookkeeping p (VDict d)) = branch_total (VDict d).
Proof.
  unfold branch_total.
  rewrite !counter_bookkeeping by (simpl; tauto). reflexivity.
Qed.

Lemma branch_total_bump (c : string) (d : list (string * value)) :
  In c branch_counters ->
  branch_total (bump c (VDict d)) = branch_total (VDict d) + 1.
Proof.
  intros Hc. cbn [branch_counters In] in Hc. unfold branch_total.
  rewrite !counter_bump.
  destruct Hc as [<-|[<-|[<-|[<-|[]]]]]; simpl (String.eqb _ _); cbv iota; lia.
Qed.

Lemma branch_total_spec_decide (o : observation) (memory : value) :
  wf_memory memory = true ->
  branch_total (snd (spec_decide o memory)) =
  branch_total memory + (if silent o then 0 else 1).
Proof.
  intros Hwf. apply wf_memory_inv in Hwf as (d & -> & _).
  destruct (bookkeeping_dict (position o) d) as [d' Hd'].
  pose proof (branch_total_bookkeeping (position o) d) as Hbook.
  assert (Hbump : forall c, In c branch_counters ->
            branch_total (bump c (bookkeeping (position o) (VDict d))) =
            branch_total (VDict d) + 1).
  { intros c Hc. rewrite Hd', (branch_total_bump c d' Hc), <- Hd', Hbook. reflexivity. }
  unfold spec_decide, silent, defensive.
  destruct (emergency o); cbn [negb andb orb].
  { destruct (Z.leb_spec 3 (energy o)) as [H3|H3];
      destruct (Z.ltb_spec (energy o) 3) as [H3'|H3']; try lia; cbn [snd orb].
    - apply Hbump. simpl. tauto.
    - rewrite Hbook. lia. }
  destruct (10 <=? energy o); cbn [negb andb orb snd].
  { apply Hbump. simpl. tauto. }
  destruct (0 <? threat_count o)%nat; cbn [andb orb].
  - destruct (threatening o); cbn [snd].
    + rewrite Hbook. lia.
    + apply Hbump. simpl. tauto.
  - apply Hbump. simpl. tauto.
Qed.

Lemma turns_played_spec_decide (o : observation) (memory : value) :
  wf_memory memory = true ->
  counter "turns_played" (snd (spec_decide o memory)) =
  counter "turns_played" memory + 1.
Proof.
  intros Hwf. apply wf_memory_inv in Hwf as (d & -> & _).
  unfold counter at 1. rewrite spec_decide_turns_played. reflexivity.
Qed.

Lemma fold_turns_played (os : list observation) (memory : value) :
  wf_memory memory = true ->
  counter "turns_played" (fold_left (fun m o => snd (spec_decide o m)) os memory) =
  counter "turns_played" memory + Z.of_nat (length os).
Proof.
  revert memory. induction os as [|o os IH]; intros memory Hwf.
  - cbn [fold_left length]. lia.
  - cbn [fold_left length]. rewrite IH by (apply wf_memory_spec_decide, Hwf).
    rewrite (turns_played_spec_decide o memory Hwf). lia.
Qed.

Lemma fold_branch_total (os : list observation) (memory : value) :
  wf_memory memory = true ->
  branch_total (fold_left (fun m o => snd (spec_decide o m)) os memory) =
  branch_total memory +
  Z.of_nat (length (List.filter (fun o => negb (silent o)) os)).
Proof.
  revert memory. induction os as [|o os IH]; intros memory Hwf.
  - cbn [fold_left List.filter length]. lia.
  - cbn [fold_left List.filter]. rewrite IH by (apply wf_memory_spec_decide, Hwf).
    rewrite (branch_total_spec_decide o memory Hwf).
    destruct (silent o); cbn [negb length]; lia.
Qed.

(** X7. [turns_played] counts the turns: after a game of n well-formed
    observations it is n more than in the memory the game started with
    (n itself when that memory had no [turns_played]). *)
Theorem turns_played_counts_the_game
    (observations : list value) (os : list observation) (memory : value) :
  Forall2 (fun world_state o => observe world_state = Some o) observations os ->
  wf_memory memory = true ->
  exists memory',
    play observations memory = OK memory' /\
    counter "turns_played" memory' =
      counter "turns_played" memory + Z.of_nat (length observations).
Proof.
  intros Hobs Hwf.
  destruct (play_fold observations os memory Hobs Hwf) as [Hplay _].
  eexists. split; [exact Hplay|].
  rewrite (Forall2_length _ _ _ Hobs). apply fold_turns_played, Hwf.
Qed.

Lemma turns_played_counts_the_game_witness :
  exists memory',
    play walk some_memory = OK memory' /\
    counter "turns_played" memory' =
      counter "turns_played" some_memory + Z.of_nat (length walk).
Proof.
  apply (turns_played_counts_the_game walk walk_obs some_memory); [|reflexivity].
  unfold walk, walk_obs. cbn [map seq]. repeat constructor.
Defined.

(** X8. The four branch counters account for every turn that is not silent:
    over a game of well-formed observations their sum grows by the number
    of turns that are neither an emergency without the energy to replicate
    nor a defence without a target, so it never grows by more than
    [turns_played] does. *)
Theorem branch_counters_count_the_loud_turns
    (observations : list value) (os : list observation) (memory : value) :
  Forall2 (fun world_state o => observe world_state = Some o) observations os ->
  wf_memory memory = true ->
  exists memory',
    play observations memory = OK memory' /\
    branch_total memory' =
      branch_total memory +
      Z.of_nat (length (List.filter (fun o => negb (silent o)) os)) /\
    branch_total memory' - branch_total memory <=
      counter "turns_played" memory' - counter "turns_played" memory.
Proof.
  intros Hobs Hwf.
  destruct (play_fold observations os memory Hobs Hwf) as [Hplay _].
  eexists. split; [exact Hplay|].
  pose proof (fold_branch_total os memory Hwf) as Htotal.
  pose proof (fold_turns_played os memory Hwf) as Hturns.
  split; [exact Htotal|].
  rewrite Htotal, Hturns.
  pose proof (filter_length_le (fun o => negb (silent o)) os). lia.
Qed.

Lemma branch_counters_count_the_loud_turns_witness :
  exists memory',
    play skirmish some_memory = OK memory' /\
    branch_total memory' =
      branch_total some_memory +
      Z.of_nat (length (List.filter (fun o => negb (silent o)) skirmish_obs)) /\
    branch_total memory' - branch_total some_memory <=
      counter "turns_played" memory' - counter "turns_played" some_memory.
Proof.
  apply (branch_counters_count_the_loud_turns skirmish skirmish_obs some_memory);
    [|reflexivity].
  unfold skirmish, skirmish_obs. repeat constructor.
Defined.

Example skirmish_counters :
  match play skirmish some_memory with
  | OK memory' => Some (counter "turns_played" memory', branch_total memory')
  | Raise _ => None
  end = Some (46, 10).
Proof. vm_compute. reflexivity. Qed.

(** * The domain of [choose_action] and its failures *)

Lemma getitem_inv (obj v : value) (key : string) :
  getitem obj key = OK v ->
  exists d, obj = VDict d /\ dict_lookup key d = Some v.
Proof.
  destruct obj as [| | | | |d]; try discriminate. cbn [getitem].
  destruct (dict_lookup key d) as [u|] eqn:Hd; [|discriminate].
  intros [= ->]. eauto.
Qed.

Lemma py_compare_numeric (op : cmpop) (a b : value) (r : bool) :
  non_number b = false -> py_compare op a b = OK r -> non_number a = false.
Proof.
  destruct b; try discriminate; intros _;
    destruct a; cbn; intros H; try discriminate H; reflexivity.
Qed.

Lemma strategy_numeric (nbrs my_energy : value) (threats : nat)
    (memory : value) (r : value * value) :
  strategy nbrs my_energy threats memory = OK r -> non_number my_energy = false.
Proof.
  unfold strategy. intros H. bind_inv H.
  destruct (2 <=? threats)%nat.
  - apply (py_compare_numeric Le my_energy (VInt 4) a); [reflexivity|assumption].
  - injection E as <-. bind_inv H.
    apply (py_compare_numeric Ge my_energy (VInt 10) a); [reflexivity|assumption].
Qed.

Lemma count_threats_readable (infos : list value) (my_energy : value) (n : nat) :
  non_number my_energy = false ->
  count_threats infos my_energy = OK n ->
  forallb readable_neighbor infos = true.
Proof.
  intros Hnum. revert n. induction infos as [|info infos IH]; intros n H.
  - reflexivity.
  - cbn [count_threats] in H. do 3 bind_inv H.
    cbn [forallb]. apply andb_true_iff. split; [|apply (IH _ eq_refl)].
    apply getitem_inv in E as (d & -> & Hd). cbn [readable_neighbor].
    rewrite Hd, (py_compare_numeric Ge a my_energy a0 Hnum E0). reflexivity.
Qed.

Lemma increment_numeric (d : list (string * value)) (key : string) (memory' : value) :
  increment (VDict d) key = OK memory' ->
  number_or_absent (dict_lookup key d) = true.
Proof.
  unfold increment. cbn [get bind]. intros H. bind_inv H.
  destruct (dict_lookup key d) as [v|]; [|reflexivity].
  cbn [number_or_absent]. destruct v; try discriminate E; reflexivity.
Qed.

Lemma update_memory_readable (memory memory' position : value) :
  update_memory memory position = OK memory' ->
  exists d,
    memory = VDict d /\
    number_or_absent (dict_lookup "turns_played" d) = true /\
    list_or_absent (dict_lookup "positions_visited" d) = true.
Proof.
  unfold update_memory. intros H. bind_inv H.
  pose proof E as Hinc. apply increment_inv in Hinc as (d & v & -> & ->).
  exists d. split; [reflexivity|]. split; [apply (increment_numeric _ _ _ E)|].
  cbn [get setitem getitem bind] in H.
  rewrite dict_lookup_store_eq in H. cbn [bind] in H.
  rewrite dict_lookup_store_ne in H by discriminate.
  bind_inv H. destruct (dict_lookup "positions_visited" d) as [[]|];
    try discriminate E0; reflexivity.
Qed.

(** X9. [choose_action] returns only on input it can read.  If it returns,
    the observation is a dict with [neighbors], [energy] and [position]; the
    energy is not None, a str, a list or a dict; [neighbors] is a dict whose
    every entry is a dict with an [energy] that is none of these either; and
    the memory is a dict whose [turns_played], if present, is none of these
    and whose [positions_visited], if present, is a list.  On input that
    misses any of this it raises. *)
Theorem choose_action_returns_only_on_readable_input
    (world_state memory : value) (r : value * value) :
  choose_action world_state memory = OK r ->
  (exists d its e p,
     world_state = VDict d /\
     dict_lookup "neighbors" d = Some (VDict its) /\
     dict_lookup "energy" d = Some e /\
     non_number e = false /\
     dict_lookup "position" d = Some p /\
     forallb readable_neighbor (map snd its) = true) /\
  (exists d,
     memory = VDict d /\
     number_or_absent (dict_lookup "turns_played" d) = true /\
     list_or_absent (dict_lookup "positions_visited" d) = true).
Proof.
  unfold choose_action. intros H. do 6 bind_inv H.
  apply getitem_inv in E as (d & -> & Hn).
  apply getitem_inv in E0 as (d' & [= <-] & He).
  apply getitem_inv in E1 as (d' & [= <-] & Hp).
  pose proof (strategy_numeric _ _ _ _ _ H) as Hnum.
  split; [|apply (update_memory_readable _ _ _ E2)].
  destruct a as [| | | | |its]; try discriminate E3.
  injection E3 as <-.
  exists d, its, a0, a1. repeat split; try assumption.
  apply (count_threats_readable _ _ _ Hnum E4).
Qed.

Lemma choose_action_returns_only_on_readable_input_witness :
  (exists d its e p,
     two_neighbors = VDict d /\
     dict_lookup "neighbors" d = Some (VDict its) /\
     dict_lookup "energy" d = Some e /\
     non_number e = false /\
     dict_lookup "position" d = Some p /\
     forallb readable_neighbor (map snd its) = true) /\
  (exists d,
     some_memory = VDict d /\
     number_or_absent (dict_lookup "turns_played" d) = true /\
     list_or_absent (dict_lookup "positions_visited" d) = true).
Proof.
  apply (choose_action_returns_only_on_readable_input two_neighbors some_memory
           (attack_action "S",
            VDict [("turns_played", VInt 42); ("peaceful_rests", VInt 7);
                   ("notes", VStr "kept");
                   ("positions_visited", VList [VList [VInt 2; VInt 7]]);
                   ("defensive_attacks", VInt 1)])).
  reflexivity.
Defined.

(** X10. An observation that lacks one of its three keys makes
    [choose_action] raise a [KeyError] naming the first missing key in the
    order [neighbors], [energy], [position], before the memory is looked at:
    the outcome is the same for every memory, well formed or not. *)
Theorem missing_key_raises_KeyError
    (d : list (string * value)) (memory : value) (key : string) :
  first_missing d = Some key ->
  choose_action (VDict d) memory = Raise (KeyError key).
Proof.
  unfold first_missing, choose_action. cbn [observation_keys List.find getitem].
  destruct (dict_lookup "neighbors" d); [|intros [= <-]; reflexivity].
  destruct (dict_lookup "energy" d); [|intros [= <-]; reflexivity].
  destruct (dict_lookup "position" d); [discriminate|intros [= <-]; reflexivity].
Qed.

Lemma missing_key_raises_KeyError_witness :
  choose_action
    (VDict [("position", VInt 0); ("neighbors", VDict [])]) (VInt 3) =
  Raise (KeyError "energy").
Proof.
  apply (missing_key_raises_KeyError
           [("position", VInt 0); ("neighbors", VDict [])] (VInt 3) "energy").
  reflexivity.
Defined.

(** * The shape of the memory after a turn *)

Lemma last_lastn_snoc {A : Type} (n : nat) (xs : list A) (x : A) :
  last (lastn (S n) (xs ++ [x])) = Some x.
Proof.
  unfold lastn. rewrite length_app, skipn_app. cbn [length].
  replace (length xs + 1 - S n - length xs)%nat with 0%nat by lia.
  cbn [skipn]. apply last_snoc.
Qed.

(** X11. Whatever the stored list held, after a turn [positions_visited]
    ends with the position just observed and holds at most 20 positions: one
    more than before if there were fewer than 20, and 20 otherwise, also when
    the loaded memory held more than 20. *)
Theorem positions_visited_after_a_turn (world_state memory : value) (o : observation) :
  observe world_state = Some o ->
  wf_memory memory = true ->
  exists action memory',
    choose_action world_state memory = OK (action, memory') /\
    field "positions_visited" memory' = Some (VList (visited memory')) /\
    last (visited memory') = Some (position o) /\
    length (visited memory') = Nat.min 20 (length (visited memory) + 1).
Proof.
  intros Hobs Hwf.
  rewrite (choose_action_spec_decide _ _ _ Hobs Hwf).
  exists (fst (spec_decide o memory)), (snd (spec_decide o memory)).
  split; [destruct (spec_decide o memory); reflexivity|].
  rewrite (visited_spec_decide o memory Hwf).
  apply wf_memory_inv in Hwf as (d & -> & _).
  split; [apply spec_decide_visited|].
  split; [apply last_lastn_snoc|].
  rewrite length_lastn, length_app. reflexivity.
Qed.

Lemma positions_visited_after_a_turn_witness :
  exists action memory',
    choose_action two_neighbors crowded_memory = OK (action, memory') /\
    field "positions_visited" memory' = Some (VList (visited memory')) /\
    last (visited memory') = Some (VList [VInt 2; VInt 7]) /\
    length (visited memory') = Nat.min 20 (length (visited crowded_memory) + 1).
Proof.
  apply (positions_visited_after_a_turn two_neighbors crowded_memory two_neighbors_obs);
    reflexivity.
Defined.

Lemma dict_store_keys (key : string) (v : value) (d : list (string * value)) :
  exists new,
    map fst (dict_store key v d) = map fst d ++ new /\
    (new = [] \/ new = [key]).
Proof.
  induction d as [|[k w] d (new & Hkeys & Hnew)]; cbn [dict_store].
  - exists [key]. split; [reflexivity|right; reflexivity].
  - destruct (String.eqb key k).
    + exists []. rewrite app_nil_r. split; [reflexivity|left; reflexivity].
    + exists new. cbn [map fst app]. rewrite Hkeys. split; [reflexivity|exact Hnew].
Qed.

(** X12. [choose_action] never removes or moves a key of the memory: the
    keys before the call are, in the same order, the first keys after it, and
    the keys that follow them are among [turns_played], [positions_visited]
    and the four branch counters. *)
Theorem choose_action_keeps_keys (world_state memory action memory' : value) :
  choose_action world_state memory = OK (action, memory') ->
  exists new,
    keys memory' = keys memory ++ new /\
    Forall (fun k => In k (bookkeeping_keys ++ branch_counters)) new.
Proof.
  unfold choose_action. intros H. do 6 bind_inv H.
  apply update_memory_inv in E2 as (d & v & w & -> & ->).
  destruct (dict_store_keys "turns_played" v d) as (new1 & Hk1 & Hn1).
  destruct (dict_store_keys "positions_visited" w (dict_store "turns_played" v d))
    as (new2 & Hk2 & Hn2).
  assert (Hbook : Forall (fun k => In k (bookkeeping_keys ++ branch_counters))
                    (new1 ++ new2)).
  { apply Forall_app. split.
    - destruct Hn1 as [-> | ->];
        [constructor | constructor; [simpl; tauto|constructor]].
    - destruct Hn2 as [-> | ->];
        [constructor | constructor; [simpl; tauto|constructor]]. }
  apply strategy_inv in H as [->|(c & Hc & Hinc)].
  - exists (new1 ++ new2). cbn [keys]. rewrite Hk2, Hk1, <- app_assoc.
    split; [reflexivity|exact Hbook].
  - apply increment_inv in Hinc as (d' & u & [= <-] & ->).
    destruct (dict_store_keys c u
                (dict_store "positions_visited" w (dict_store "turns_played" v d)))
      as (new3 & Hk3 & Hn3).
    exists ((new1 ++ new2) ++ new3). cbn [keys].
    rewrite Hk3, Hk2, Hk1, <- !app_assoc. split; [reflexivity|].
    rewrite app_assoc. apply Forall_app. split; [exact Hbook|].
    destruct Hn3 as [-> | ->]; [constructor|].
    constructor; [|constructor]. apply in_or_app. right. exact Hc.
Qed.

Lemma choose_action_keeps_keys_witness :
  exists new,
    keys (VDict [("turns_played", VInt 42); ("peaceful_rests", VInt 7);
                 ("notes", VStr "kept");
                 ("positions_visited", VList [VList [VInt 2; VInt 7]]);
                 ("defensive_attacks", VInt 1)]) = keys some_memory ++ new /\
    Forall (fun k => In k (bookkeeping_keys ++ branch_counters)) new.
Proof.
  apply (choose_action_keeps_keys two_neighbors some_memory (attack_action "S")).
  reflexivity.
Defined.

(** * The memory store *)


(** A good memory on file is lost when the next save cannot be dumped. *)
Example failed_dump_destroys_the_stored_memory :
  load_memory "agent-7" (fs shared_world) = some_memory /\
  load_memory "agent-7"
    (save_memory "agent-7" astronomic_memory (fs shared_world)) = VDict [].
Proof.
  split; [reflexivity|].
  apply save_memory_cut_short; [reflexivity|exact json_dump_ok_astronomic].
Qed.

(** * The main loop *)

Lemma save_memory_writable (agent_id : string) (memory : value) (fs : filesystem) :
  writable (save_memory agent_id memory fs) = writable fs.
Proof.
  unfold save_memory. destruct (writable fs (MEMORY_FILE agent_id)); reflexivity.
Qed.

Lemma save_memory_readable (agent_id : string) (memory : value) (fs : filesystem) :
  readable (save_memory agent_id memory fs) = readable fs.
Proof.
  unfold save_memory. destruct (writable fs (MEMORY_FILE agent_id)); reflexivity.
Qed.

Lemma save_memory_dumps (agent_id : string) (memory : value) (fs : filesystem) :
  dumps (save_memory agent_id memory fs) = dumps fs.
Proof.
  unfold save_memory. destruct (writable fs (MEMORY_FILE agent_id)); reflexivity.
Qed.

Lemma save_memory_other (agent_id path : string) (memory : value) (fs : filesystem) :
  path <> MEMORY_FILE agent_id ->
  files (save_memory agent_id memory fs) !! path = files fs !! path.
Proof.
  intros Hpath. unfold save_memory.
  destruct (writable fs (MEMORY_FILE agent_id)); [|reflexivity].
  cbn [files]. destruct (readable fs (MEMORY_FILE agent_id)).
  - apply lookup_insert_ne. congruence.
  - apply lookup_delete_ne. congruence.
Qed.

(** What the loop does to the world, whatever the lines are: it prints at
    most one line per input line, after what was printed before, and touches
    no file but the memory file of the agent. *)
Lemma main_loop_frame (agent_id : string) (stdin : list (result value))
    (memory : value) (w : world) :
  exists out,
    stdout (fst (main_loop agent_id stdin memory w)) = stdout w ++ out /\
    (length out <= length stdin)%nat /\
    (snd (main_loop agent_id stdin memory w) = None -> length out = length stdin) /\
    (snd (main_loop agent_id stdin memory w) <> None -> (length out < length stdin)%nat) /\
    writable (fs (fst (main_loop agent_id stdin memory w))) = writable (fs w) /\
    forall path, path <> MEMORY_FILE agent_id ->
      files (fs (fst (main_loop agent_id stdin memory w))) !! path =
      files (fs w) !! path.
Proof.
  revert memory w. induction stdin as [|line stdin IH]; intros memory w.
  - exists []. cbn [main_loop fst snd length]. rewrite app_nil_r.
    split; [reflexivity|]. split; [lia|]. split; [reflexivity|].
    split; [congruence|]. split; reflexivity.
  - cbn [main_loop].
    destruct (world_state <- line ;; choose_action world_state memory)
      as [[action updated_memory]|e].
    + destruct (IH updated_memory
                  (print action {| fs := save_memory agent_id updated_memory (fs w);
                                   stdout := stdout w |}))
        as (out & Hout & Hlen & Hall & Hsome & Hw & Hfiles).
      exists (action :: out). rewrite Hout, Hw.
      cbn [print stdout fs length]. rewrite <- app_assoc.
      split; [reflexivity|]. split; [lia|].
      split; [intros Hnone; rewrite (Hall Hnone); reflexivity|].
      split; [intros Hnone; specialize (Hsome Hnone); lia|].
      split; [apply save_memory_writable|].
      intros path Hpath. rewrite (Hfiles path Hpath). cbn [print fs].
      apply save_memory_other, Hpath.
    + exists []. cbn [fst snd length]. rewrite app_nil_r.
      split; [reflexivity|]. split; [lia|]. split; [discriminate|].
      split; [intros _; lia|]. split; reflexivity.
Qed.

(** X15. Whatever the input holds, the program prints after what was
    printed before, at most one line per input line and at least one line if
    there is any input. *)
Theorem main_prints_at_most_one_line_per_line
    (environ : gmap string string) (stdin : list (result value)) (w : world) :
  exists out,
    stdout (main environ stdin w) = stdout w ++ out /\
    (length out <= length stdin)%nat /\
    (stdin <> [] -> out <> []).
Proof.
  unfold main.
  destruct (main_loop_frame (AGENT_ID environ) stdin
              (load_memory (AGENT_ID environ) (fs w)) w)
    as (out & Hout & Hlen & Hall & Hsome & _).
  destruct (main_loop (AGENT_ID environ) stdin
              (load_memory (AGENT_ID environ) (fs w)) w) as [w' [e|]];
    cbn [fst snd] in *.
  - exists (out ++ [fallback_action e]). cbn [print stdout].
    rewrite Hout, <- app_assoc. split; [reflexivity|].
    rewrite length_app. cbn [length].
    split; [assert (length out < length stdin)%nat by (apply Hsome; discriminate); lia|].
    intros _. destruct out; discriminate.
  - exists out. split; [exact Hout|]. split; [exact Hlen|].
    intros Hne Hnil. subst out. specialize (Hall eq_refl).
    destruct stdin; [contradiction|discriminate].
Qed.

(** X16. The only file the program ever changes is the memory file of its
    own identity: every other path holds after the run what it held before,
    and what may be written is as before. *)
Theorem main_writes_only_its_memory_file
    (environ : gmap string string) (stdin : list (result value)) (w : world)
    (path : string) :
  path <> MEMORY_FILE (AGENT_ID environ) ->
  files (fs (main environ stdin w)) !! path = files (fs w) !! path /\
  writable (fs (main environ stdin w)) = writable (fs w).
Proof.
  intros Hpath. unfold main.
  destruct (main_loop_frame (AGENT_ID environ) stdin
              (load_memory (AGENT_ID environ) (fs w)) w)
    as (out & _ & _ & _ & _ & Hw & Hfiles).
  destruct (main_loop (AGENT_ID environ) stdin
              (load_memory (AGENT_ID environ) (fs w)) w) as [w' [e|]];
    cbn [fst snd print fs] in *; split; auto.
Qed.

Lemma main_writes_only_its_memory_file_witness :
  files (fs (main ∅ three_lines shared_world)) !! MEMORY_FILE "agent-7" =
    files (fs shared_world) !! MEMORY_FILE "agent-7" /\
  writable (fs (main ∅ three_lines shared_world)) = writable (fs shared_world).
Proof.
  apply (main_writes_only_its_memory_file ∅ three_lines shared_world
           (MEMORY_FILE "agent-7")).
  discriminate.
Defined.

(** A run of turns that all succeed: one action is printed per line, the
    memory of the last turn is what the file holds if it can be written, and
    the loop goes on with the lines that follow from that memory. *)
Lemma main_loop_success (agent_id : string) (observations : list value)
    (memory0 memory : value) (w : world) :
  play observations memory0 = OK memory ->
  exists w',
    (forall rest,
       main_loop agent_id (map OK observations ++ rest) memory0 w =
       main_loop agent_id rest memory w') /\
    stdout w' = stdout w ++ turn_actions observations memory0 /\
    length (turn_actions observations memory0) = length observations /\
    (observations = [] -> w' = w) /\
    (observations <> [] ->
     writable (fs w) (MEMORY_FILE agent_id) = true ->
     readable (fs w) (MEMORY_FILE agent_id) = true ->
     dumps (fs w) memory = true ->
     files (fs w') !! MEMORY_FILE agent_id = Some (Document memory)).
Proof.
  revert memory0 w.
  induction observations as [|world_state observations IH]; intros memory0 w Hplay.
  - injection Hplay as ->. exists w. cbn [map app turn_actions length].
    rewrite app_nil_r. repeat split; try reflexivity. contradiction.
  - cbn [play] in Hplay. cbn [turn_actions].
    destruct (choose_action world_state memory0) as [[action memory1]|] eqn:Hturn;
      [cbn [bind snd] in Hplay|discriminate Hplay].
    destruct (IH memory1
                (print action {| fs := save_memory agent_id memory1 (fs w);
                                 stdout := stdout w |}) Hplay)
      as (w' & Hloop & Hout & Hlen & Hnil & Hfile).
    exists w'. split; [|split; [|split; [|split]]].
    + intros rest. cbn [map app main_loop bind]. rewrite Hturn. apply Hloop.
    + rewrite Hout. cbn [print stdout]. rewrite <- app_assoc. reflexivity.
    + cbn [length]. rewrite Hlen. reflexivity.
    + discriminate.
    + intros _ Hw Hr Hd. destruct observations as [|world_state' observations].
      * injection Hplay as <-. rewrite (Hnil eq_refl). cbn [print fs].
        unfold save_memory. rewrite Hw, Hr, Hd. cbn [files]. apply lookup_insert_eq.
      * apply Hfile; [discriminate| | |]; cbn [print fs].
        -- rewrite save_memory_writable. exact Hw.
        -- rewrite save_memory_readable. exact Hr.
        -- rewrite save_memory_dumps. exact Hd.
Qed.

Lemma main_success (environ : gmap string string) (observations : list value)
    (memory : value) (w : world) :
  play observations (load_memory (AGENT_ID environ) (fs w)) = OK memory ->
  exists w',
    main environ (map OK observations) w = w' /\
    (forall rest,
       main_loop (AGENT_ID environ) (map OK observations ++ rest)
         (load_memory (AGENT_ID environ) (fs w)) w =
       main_loop (AGENT_ID environ) rest memory w') /\
    stdout w' =
      stdout w ++ turn_actions observations (load_memory (AGENT_ID environ) (fs w)) /\
    (observations = [] -> w' = w) /\
    (observations <> [] ->
     writable (fs w) (MEMORY_FILE (AGENT_ID environ)) = true ->
     readable (fs w) (MEMORY_FILE (AGENT_ID environ)) = true ->
     dumps (fs w) memory = true ->
     files (fs w') !! MEMORY_FILE (AGENT_ID environ) = Some (Document memory)).
Proof.
  intros Hplay.
  destruct (main_loop_success (AGENT_ID environ) observations _ _ w Hplay)
    as (w' & Hloop & Hout & _ & Hnil & Hfile).
  exists w'. split; [|auto].
  unfold main. rewrite <- (app_nil_r (map OK observations)), Hloop. reflexivity.
Qed.

Lemma turn_actions_wf (observations : list value) (os : list observation)
    (memory : value) :
  Forall2 (fun world_state o => observe world_state = Some o) observations os ->
  wf_memory memory = true ->
  Forall2 is_action os (turn_actions observations memory).
Proof.
  intros Hobs. revert memory.
  induction Hobs as [|world_state o observations os Ho _ IH]; intros memory Hwf.
  - constructor.
  - cbn [turn_actions]. rewrite (choose_action_spec_decide _ _ _ Ho Hwf).
    pose proof (spec_decide_is_action o memory) as Hact.
    pose proof (wf_memory_spec_decide o memory Hwf) as Hwf'.
    destruct (spec_decide o memory) as [action memory'].
    constructor; [exact Hact|apply IH, Hwf'].
Qed.

(** X17. On a stream of well-formed observations, with a memory file that
    is missing, damaged or holds a well-formed memory, the program never
    falls back: it prints exactly one action of the protocol per line, each an
    action for the observation of that line. *)
Theorem main_answers_every_well_formed_line
    (environ : gmap string string) (observations : list value)
    (os : list observation) (w : world) :
  Forall2 (fun world_state o => observe world_state = Some o) observations os ->
  wf_memory (load_memory (AGENT_ID environ) (fs w)) = true ->
  exists actions,
    stdout (main environ (map OK observations) w) = stdout w ++ actions /\
    Forall2 is_action os actions.
Proof.
  intros Hobs Hwf.
  destruct (play_fold observations os _ Hobs Hwf) as [Hplay _].
  destruct (main_success environ observations _ w Hplay) as (w' & -> & _ & Hout & _).
  eexists. split; [exact Hout|]. apply turn_actions_wf; assumption.
Qed.

Lemma main_answers_every_well_formed_line_witness :
  exists actions,
    stdout (main ∅ (map OK skirmish) fresh_world) = stdout fresh_world ++ actions /\
    Forall2 is_action skirmish_obs actions.
Proof.
  apply (main_answers_every_well_formed_line ∅ skirmish skirmish_obs fresh_world);
    [|reflexivity].
  unfold skirmish, skirmish_obs. repeat constructor.
Defined.




(** Without the condition on [json.dump] the memory is not kept: when the
    stored turn counter is the largest int of 4300 digits, the turn is
    answered, its memory cannot be dumped and the file is left cut short. *)
Example main_loses_a_memory_it_cannot_dump :
  stdout (main ∅ [OK quiet] brim_world) = [rest_action] /\
  files (fs (main ∅ [OK quiet] brim_world)) !! MEMORY_FILE "unknown" =
    Some Unparsable /\
  load_memory "unknown" (fs (main ∅ [OK quiet] brim_world)) = VDict [].
Proof.
  assert (Hturn : forall turns,
            choose_action quiet (VDict [("turns_played", VInt turns)]) =
            OK (rest_action,
                VDict [("turns_played", VInt (turns + 1));
                       ("positions_visited", VList [VInt 0]);
                       ("peaceful_rests", VInt 1)]))
    by (intros turns; reflexivity).
  assert (Hmain : main ∅ [OK quiet] brim_world =
                  print rest_action
                    {| fs := save_memory "unknown"
                               (VDict [("turns_played", VInt (10 ^ 4300 - 1 + 1));
                                       ("positions_visited", VList [VInt 0]);
                                       ("peaceful_rests", VInt 1)])
                               (fs brim_world);
                       stdout := [] |}).
  { unfold main.
    change (AGENT_ID ∅) with "unknown".
    change (load_memory "unknown" (fs brim_world))
      with (VDict [("turns_played", VInt (10 ^ 4300 - 1))]).
    cbn [main_loop bind]. rewrite Hturn. reflexivity. }
  rewrite Hmain. cbn [print fs stdout].
  destruct (save_memory_cut_short "unknown"
              (VDict [("turns_played", VInt (10 ^ 4300 - 1 + 1));
                      ("positions_visited", VList [VInt 0]);
                      ("peaceful_rests", VInt 1)])
              (fs brim_world)) as [Hload Hfile].
  - reflexivity.
  - change (json_dump_ok
              (VDict [("turns_played", VInt (10 ^ 4300 - 1 + 1));
                      ("positions_visited", VList [VInt 0]);
                      ("peaceful_rests", VInt 1)]) = false).
    cbn [json_dump_ok forallb].
    rewrite Z.sub_add, int_to_text_ok_limit. reflexivity.
  - split; [reflexivity|]. split; [apply Hfile; reflexivity|exact Hload].
Qed.



(** X20. A failing line leaves the files as the last answered line left
    them: the memory that the failing turn may have begun to update is not
    saved. *)
Theorem failing_line_is_not_saved (environ : gmap string string)
    (observations : list value) (line : result value) (rest : list (result value))
    (memory : value) (e : exn) (w : world) :
  play observations (load_memory (AGENT_ID environ) (fs w)) = OK memory ->
  (world_state <- line ;; choose_action world_state memory) = Raise e ->
  fs (main environ (map OK observations ++ line :: rest) w) =
  fs (main environ (map OK observations) w).
Proof.
  intros Hplay Hfail.
  destruct (main_success environ observations _ w Hplay)
    as (w' & -> & Hloop & _).
  unfold main. rewrite Hloop. cbn [main_loop]. rewrite Hfail. reflexivity.
Qed.

Lemma failing_line_is_not_saved_witness :
  fs (main ∅ (map OK [quiet] ++ OK (VDict []) :: [OK quiet]) fresh_world) =
  fs (main ∅ (map OK [quiet]) fresh_world).
Proof.
  apply (failing_line_is_not_saved ∅ [quiet] (OK (VDict [])) [OK quiet]
           (VDict [("turns_played", VInt 1); ("positions_visited", VList [VInt 0]);
                   ("peaceful_rests", VInt 1)])
           (KeyError "neighbors") fresh_world); reflexivity.
Defined.

(** X21. A memory file that holds a JSON document other than an object
    disables the agent: [load_memory] hands the document on as it is, the
    first turn fails on [memory.get], and the program prints the fallback
    action alone and leaves the files as they were, whatever lines follow. *)
Theorem main_with_a_memory_that_is_no_mapping
    (environ : gmap string string) (world_state doc : value) (o : observation)
    (rest : list (result value)) (w : world) :
  observe world_state = Some o ->
  files (fs w) !! MEMORY_FILE (AGENT_ID environ) = Some (Document doc) ->
  (forall d, doc <> VDict d) ->
  main environ (OK world_state :: rest) w =
  print (VDict [("action", VStr "rest");
                ("message",
                 VStr ("Error: '" +:+ type_name doc +:+
                       "' object has no attribute 'get'"))]) w.
Proof.
  intros Hobs Hfile Hdoc.
  apply observe_inv in Hobs as (d & its & -> & Hn & He & Hp & _).
  unfold main, load_memory. rewrite Hfile. cbn [main_loop bind].
  unfold choose_action. cbn [getitem]. rewrite Hn, He, Hp. cbn [bind].
  destruct doc as [| | | | |dm]; try reflexivity.
  exfalso. apply (Hdoc dm). reflexivity.
Qed.

Lemma main_with_a_memory_that_is_no_mapping_witness :
  main ∅ (OK quiet :: [OK quiet]) array_world =
  print (VDict [("action", VStr "rest");
                ("message", VStr "Error: 'list' object has no attribute 'get'")])
        array_world.
Proof.
  apply (main_with_a_memory_that_is_no_mapping ∅ quiet (VList [])
           {| position := VInt 0; energy := 1; neighbors := [] |}
           [OK quiet] array_world); [reflexivity | reflexivity | discriminate].
Defined.

(** * The order of the neighbours *)

Lemma filter_Permutation_length {A : Type} (f : A -> bool) (l l' : list A) :
  Permutation l l' -> Permutation (List.filter f l) (List.filter f l').
Proof.
  induction 1 as [|x l l' _ IH|x y l|l l' l'' _ IH1 _ IH2]; cbn [List.filter].
  - constructor.
  - destruct (f x); [constructor|]; exact IH.
  - destruct (f x), (f y); try reflexivity. constructor.
  - etransitivity; eassumption.
Qed.

Lemma NoDup_map_snd_inj {A B : Type} (l : list (A * B)) (a a' : A) (b : B) :
  NoDup (map snd l) -> In (a, b) l -> In (a', b) l -> a = a'.
Proof.
  induction l as [|[x y] l IH]; cbn [map snd]; intros Hnd Ha Ha'.
  - destruct Ha.
  - apply NoDup_cons in Hnd as [Hfresh Hnd].
    destruct Ha as [Ha|Ha], Ha' as [Ha'|Ha'].
    + congruence.
    + exfalso. apply Hfresh. apply list_elem_of_In.
      apply (in_map snd) in Ha'. cbn [snd] in *. congruence.
    + exfalso. apply Hfresh. apply list_elem_of_In.
      apply (in_map snd) in Ha. cbn [snd] in *. congruence.
    + apply (IH Hnd Ha Ha').
Qed.

Lemma first_min_unique (d d' : string) (l l' : list (string * Z)) :
  Permutation l l' -> NoDup (map snd l) ->
  first_min d l -> first_min d' l' -> d = d'.
Proof.
  intros Hperm Hnd Hd Hd'.
  apply first_min_entry in Hd as (n & Hin & Hmin).
  apply first_min_entry in Hd' as (n' & Hin' & Hmin').
  rewrite List.Forall_forall in Hmin, Hmin'.
  apply (Permutation_in _ (Permutation_sym Hperm)) in Hin'.
  pose proof (Hmin _ Hin') as Hle. cbn [snd] in Hle.
  pose proof (Hmin' _ (Permutation_in _ Hperm Hin)) as Hle'. cbn [snd] in Hle'.
  assert (n = n') by lia. subst n'.
  apply (NoDup_map_snd_inj l d d' n Hnd Hin Hin').
Qed.

(** X22. The action does not depend on the order in which the neighbours
    are listed, except to break a tie: two observations with the same energy
    whose neighbours are the same up to their order get the same action,
    provided no two threatening neighbours have the same energy. *)
Theorem action_ignores_the_order_of_neighbors
    (world_state1 world_state2 memory1 memory2 : value) (o1 o2 : observation) :
  observe world_state1 = Some o1 ->
  observe world_state2 = Some o2 ->
  wf_memory memory1 = true ->
  wf_memory memory2 = true ->
  energy o1 = energy o2 ->
  Permutation (neighbors o1) (neighbors o2) ->
  NoDup (map snd (threatening o1)) ->
  exists action memory1' memory2',
    choose_action world_state1 memory1 = OK (action, memory1') /\
    choose_action world_state2 memory2 = OK (action, memory2').
Proof.
  intros Hobs1 Hobs2 Hwf1 Hwf2 He Hperm Hnd.
  rewrite (choose_action_spec_decide _ _ _ Hobs1 Hwf1).
  rewrite (choose_action_spec_decide _ _ _ Hobs2 Hwf2).
  assert (Hthreats : threat_count o1 = threat_count o2).
  { unfold threat_count. rewrite He.
    apply Permutation_length, filter_Permutation_length, Hperm. }
  assert (Hthr : Permutation (threatening o1) (threatening o2)).
  { unfold threatening. rewrite He. apply filter_Permutation_length, Hperm. }
  assert (Hact : fst (spec_decide o1 memory1) = fst (spec_decide o2 memory2)).
  { unfold spec_decide, emergency. rewrite Hthreats, He.
    destruct ((2 <=? threat_count o2)%nat && (energy o2 <=? 4)).
    { destruct (3 <=? energy o2); reflexivity. }
    destruct (10 <=? energy o2); [reflexivity|].
    destruct (0 <? threat_count o2)%nat; [|reflexivity].
    destruct (threatening o1) as [|x1 l1] eqn:H1, (threatening o2) as [|x2 l2] eqn:H2.
    - reflexivity.
    - apply Permutation_nil in Hthr. discriminate Hthr.
    - apply Permutation_sym, Permutation_nil in Hthr. discriminate Hthr.
    - cbn [fst]. f_equal.
      apply (first_min_unique _ _ (x1 :: l1) (x2 :: l2) Hthr Hnd);
        apply min_dir_first_min; discriminate. }
  destruct (spec_decide o1 memory1) as [a1 m1], (spec_decide o2 memory2) as [a2 m2].
  cbn [fst] in Hact. subst a2. eauto.
Qed.

Lemma action_ignores_the_order_of_neighbors_witness :
  exists action memory1' memory2',
    choose_action outnumbered some_memory = OK (action, memory1') /\
    choose_action outnumbered_reordered (VDict []) = OK (action, memory2').
Proof.
  apply (action_ignores_the_order_of_neighbors outnumbered outnumbered_reordered
           some_memory (VDict []) outnumbered_obs outnumbered_reordered_obs);
    try reflexivity.
  - cbn [neighbors outnumbered_obs outnumbered_reordered_obs].
    apply perm_trans with [("E", 4); ("N", 8); ("S", 0)].
    + apply perm_swap.
    + apply perm_trans with [("E", 4); ("S", 0); ("N", 8)].
      * apply perm_skip, perm_swap.
      * apply perm_swap.
  - change (NoDup [8; 4]). apply NoDup_cons. split; [|apply NoDup_singleton].
    intros H. apply list_elem_of_singleton in H. discriminate H.
Defined.

(** With a tie the order decides: the two observations below are equal for
    Python's [==], and the first attacks north while the second attacks
    south. *)
Example tie_is_broken_by_the_order :
  py_eq tie_north_first tie_south_first = true /\
  fst <$> (match choose_action tie_north_first (VDict []) with
           | OK r => Some r | Raise _ => None end) = Some (attack_action "N") /\
  fst <$> (match choose_action tie_south_first (VDict []) with
           | OK r => Some r | Raise _ => None end) = Some (attack_action "S").
Proof. repeat split. Qed.

(** * Persistence failures and the output *)

Lemma main_loop_stdout (agent_id : string) (stdin : list (result value))
    (memory : value) (w1 w2 : world) :
  stdout w1 = stdout w2 ->
  stdout (fst (main_loop agent_id stdin memory w1)) =
    stdout (fst (main_loop agent_id stdin memory w2)) /\
  snd (main_loop agent_id stdin memory w1) = snd (main_loop agent_id stdin memory w2).
Proof.
  revert memory w1 w2. induction stdin as [|line stdin IH]; intros memory w1 w2 Hout.
  - split; [exact Hout|reflexivity].
  - cbn [main_loop].
    destruct (world_state <- line ;; choose_action world_state memory)
      as [[action updated_memory]|e].
    + apply IH. cbn [print stdout]. rewrite Hout. reflexivity.
    + split; [exact Hout|reflexivity].
Qed.

(** X23. Whether the memory can be saved never changes what is printed: two
    runs on the same lines that start from the same loaded memory print the
    same, whatever their file systems allow to be written, dumped or read
    back. *)
Theorem main_output_ignores_save_failures
    (environ : gmap string string) (stdin : list (result value)) (w1 w2 : world) :
  load_memory (AGENT_ID environ) (fs w1) = load_memory (AGENT_ID environ) (fs w2) ->
  stdout w1 = stdout w2 ->
  stdout (main environ stdin w1) = stdout (main environ stdin w2).
Proof.
  intros Hload Hout. unfold main. rewrite Hload.
  destruct (main_loop_stdout (AGENT_ID environ) stdin
              (load_memory (AGENT_ID environ) (fs w2)) w1 w2 Hout) as [Hs He].
  destruct (main_loop (AGENT_ID environ) stdin
              (load_memory (AGENT_ID environ) (fs w2)) w1) as [w1' e1],
           (main_loop (AGENT_ID environ) stdin
              (load_memory (AGENT_ID environ) (fs w2)) w2) as [w2' e2].
  cbn [fst snd] in Hs, He. subst e2.
  destruct e1; cbn [print stdout]; rewrite Hs; reflexivity.
Qed.

Lemma main_output_ignores_save_failures_witness :
  stdout (main ∅ (map OK skirmish) frozen_world) =
  stdout (main ∅ (map OK skirmish) thawed_world).
Proof.
  apply (main_output_ignores_save_failures ∅ (map OK skirmish) frozen_world
           thawed_world); reflexivity.
Defined.
